(** * The order workflow of the marketplace

    A shallow embedding of the two React hooks that carry the checkout:
    [useOrders] (src/hooks/useOrders.ts: [fetchOrders], [createOrder],
    [updateOrderStatus], [uploadPaymentReceipt]) and [useCart]
    ([fetchCartItems], [updateQuantity], [removeFromCart]).

    The hosted store is a record of tables plus the list of requests it has
    received.  Whether a request fails, what the order-number procedure
    answers and what the clock reads are not decided by the hooks: they are
    read from a [Backend], so every statement below holds for whatever the
    store chooses to do.  A store call always resolves to its
    [{ data, error }] reply (the client is never put in its throwing mode),
    and a request that fails leaves the tables as they were.  Row-level
    security policies are outside the model. *)

From stdpp Require Import base strings list pretty.

(** ** JavaScript values *)

(** What a [catch] clause receives.  The hooks look at two things only:
    [err instanceof Error] and [err.message]. *)
Record Thrown : Type := mkThrown {
  instanceof_Error : bool;
  message : string;
}.

Definition new_Error (msg : string) : Thrown :=
  {| instanceof_Error := true; message := msg |}.

(** [err instanceof Error ? err.message : fallback] *)
Definition message_or (fallback : string) (err : Thrown) : string :=
  if instanceof_Error err then message err else fallback.

(** How a call ends: with a value, or with a thrown one. *)
Inductive Completion (A : Type) : Type :=
| Normal (a : A)
| Throw (e : Thrown).
Arguments Normal {A} a.
Arguments Throw {A} e.

(** The [{ data, error }] pair every store call resolves to. *)
Record Reply (A : Type) : Type := mkReply {
  data : option A;
  error : option Thrown;
}.
Arguments mkReply {A} data error.
Arguments data {A} r.
Arguments error {A} r.

(** [a || b] on a nullable string: [null] and the empty string are falsy. *)
Definition or_else (a : option string) (b : string) : string :=
  match a with
  | Some s => if decide (s = EmptyString) then b else s
  | None => b
  end.

(** Prices and amounts are JavaScript numbers.  The workflow only adds them
    and multiplies them by a quantity, and nothing below relies on a law of
    either operation, so they are kept abstract: the IEEE doubles of the
    source are one instance, exact integers another. *)
Class JsNumber (num : Type) : Type := {
  num_zero : num;
  num_add : num → num → num;
  num_mul : num → Z → num;
}.

#[export] Instance Z_JsNumber : JsNumber Z :=
  {| num_zero := 0%Z; num_add := Z.add; num_mul := Z.mul |}.

Inductive Role : Type := buyer | seller.

#[export] Instance Role_eq_dec : EqDecision Role.
Proof. solve_decision. Defined.

Section Marketplace.

Context {num : Type} `{JsNumber num}.

(** ** Rows (lib/supabase.ts and the schema migration) *)

Record Product : Type := mkProduct {
  p_id : string;
  p_seller_id : string;
  p_price : num;
  p_stock_quantity : Z;
}.

(** A row of [cart_items]. *)
Record CartRow : Type := mkCartRow {
  cr_id : string;
  cr_buyer_id : string;
  cr_product_id : string;
  cr_quantity : Z;
}.

(** An element of the [cartItems] array handed to [createOrder], with the
    fields the function reads.  [createOrder] dereferences [item.product]
    unguarded, so the items carry their product. *)
Record CartItem : Type := mkCartItem {
  ci_product_id : string;
  ci_quantity : Z;
  ci_product : Product;
}.

(** Generated order ids stand for [gen_random_uuid()]: a serial that the
    store never hands out twice. *)
Record Order : Type := mkOrder {
  o_id : nat;
  o_order_number : string;
  o_buyer_id : string;
  o_seller_id : string;
  o_total_amount : num;
  o_status : string;
  o_shipping_address : string;
  o_notes : option string;
}.

Record OrderItem : Type := mkOrderItem {
  oi_order_id : nat;
  oi_product_id : string;
  oi_quantity : Z;
  oi_unit_price : num;
  oi_total_price : num;
}.

Record PaymentReceipt : Type := mkPaymentReceipt {
  pr_order_id : nat;
  pr_receipt_url : string;
  pr_uploaded_by : string;
  pr_status : string;
}.

Record StripeOrder : Type := mkStripeOrder {
  so_order_id : Z;
  so_amount_total : Z;
  so_order_status : string;
}.

(** ** The store *)

Inductive Request : Type :=
| RpcGenerateOrderNumber
| OrdersInsert (order_number buyer_id seller_id : string) (total_amount : num)
    (shipping_address : string) (notes : option string)
| OrderItemsInsert (rows : list OrderItem)
| ProductsUpdateStock (id : string) (stock_quantity : Z)
| CartItemsDeleteBuyer (buyer_id : string)
| CartItemsDeleteId (id : string)
| CartItemsUpdateQuantity (id : string) (quantity : Z)
| CartItemsSelect (buyer_id : string)
| OrdersUpdateStatus (id : nat) (status : string)
| PaymentReceiptsInsert (order_id : nat) (receipt_url uploaded_by : string)
| OrdersSelect
| StripeUserOrdersSelect.

Definition is_write (r : Request) : bool :=
  match r with
  | RpcGenerateOrderNumber | CartItemsSelect _ | OrdersSelect
  | StripeUserOrdersSelect => false
  | _ => true
  end.

Record Store : Type := mkStore {
  orders : list Order;
  order_items : list OrderItem;
  products : list Product;
  cart_items : list CartRow;
  payment_receipts : list PaymentReceipt;
  stripe_user_orders : list StripeOrder;
  next_order_id : nat;
  requests : list Request;
}.

(** What the store decides on its own.  The calls of one checkout are named
    by the position of their seller group (and of the item, for the stock
    updates); the other operations make each call once. *)
Record Backend : Type := mkBackend {
  rpc_generate_order_number : nat → Reply string;
  Date_now : nat → N;
  orders_insert_error : nat → option Thrown;
  order_items_insert_error : nat → option Thrown;
  products_update_error : nat → nat → option Thrown;
  cart_items_delete_error : option Thrown;
  cart_items_update_error : option Thrown;
  cart_items_select_error : option Thrown;
  orders_update_error : option Thrown;
  payment_receipts_insert_error : option Thrown;
  orders_select_error : option Thrown;
  stripe_user_orders_select_error : option Thrown;
}.

(** ** React state of the two hooks, and the session *)

Record OrdersState : Type := mkOrdersState {
  st_orders : list Order;
  st_stripeOrders : list StripeOrder;
  st_loading : bool;
  st_error : option string;
}.

Record CartState : Type := mkCartState {
  st_cartItems : list (CartRow * option Product);
  st_cart_loading : bool;
  st_cart_error : option string;
}.

Record Session : Type := mkSession {
  user : option string;          (* user.id *)
  profile : option Role;         (* profile.role *)
  options_status : option string;
  options_role : option Role;
}.

Record World : Type := mkWorld {
  store : Store;
  useOrders_state : OrdersState;
  useCart_state : CartState;
}.

(** ** Asynchronous code as state passing with exceptions *)

Definition M (A : Type) : Type := World → Completion A * World.

Definition ret {A} (a : A) : M A := λ w, (Normal a, w).

Definition throw {A} (e : Thrown) : M A := λ w, (Throw e, w).

Definition bind {A B} (m : M A) (k : A → M B) : M B :=
  λ w, match m w with
       | (Normal a, w') => k a w'
       | (Throw e, w') => (Throw e, w')
       end.

Definition try_catch {A} (body : M A) (handler : Thrown → M A) : M A :=
  λ w, match body w with
       | (Normal a, w') => (Normal a, w')
       | (Throw e, w') => handler e w'
       end.

Definition try_finally {A} (body : M A) (final : M unit) : M A :=
  λ w, match body w with
       | (r, w') => match final w' with
                    | (Normal _, w'') => (r, w'')
                    | (Throw e, w'') => (Throw e, w'')
                    end
       end.

Definition modify (f : World → World) : M unit := λ w, (Normal tt, f w).

Local Notation "x <- c ;; k" := (bind c (λ x, k))
  (at level 100, c at next level, k at level 200, right associativity).

Definition set_store (f : Store → Store) : World → World :=
  λ w, mkWorld (f (store w)) (useOrders_state w) (useCart_state w).

Definition set_useOrders (f : OrdersState → OrdersState) : World → World :=
  λ w, mkWorld (store w) (f (useOrders_state w)) (useCart_state w).

Definition set_useCart (f : CartState → CartState) : World → World :=
  λ w, mkWorld (store w) (useOrders_state w) (f (useCart_state w)).

(** *** What a request does to the tables when the store accepts it *)

Definition record (r : Request) (s : Store) : Store :=
  mkStore (orders s) (order_items s) (products s) (cart_items s)
    (payment_receipts s) (stripe_user_orders s) (next_order_id s)
    (requests s ++ [r]).

Definition add_order (o : Order) (s : Store) : Store :=
  mkStore (orders s ++ [o]) (order_items s) (products s) (cart_items s)
    (payment_receipts s) (stripe_user_orders s) (S (next_order_id s))
    (requests s).

Definition add_order_items (rows : list OrderItem) (s : Store) : Store :=
  mkStore (orders s) (order_items s ++ rows) (products s) (cart_items s)
    (payment_receipts s) (stripe_user_orders s) (next_order_id s)
    (requests s).

Definition with_stock (q : Z) (p : Product) : Product :=
  mkProduct (p_id p) (p_seller_id p) (p_price p) q.

Definition set_stock (id : string) (q : Z) (s : Store) : Store :=
  mkStore (orders s) (order_items s)
    ((λ p, if decide (p_id p = id) then with_stock q p else p) <$> products s)
    (cart_items s) (payment_receipts s) (stripe_user_orders s)
    (next_order_id s) (requests s).

Definition set_cart_items (f : list CartRow → list CartRow) (s : Store) : Store :=
  mkStore (orders s) (order_items s) (products s) (f (cart_items s))
    (payment_receipts s) (stripe_user_orders s) (next_order_id s)
    (requests s).

Definition with_quantity (q : Z) (r : CartRow) : CartRow :=
  mkCartRow (cr_id r) (cr_buyer_id r) (cr_product_id r) q.

Definition with_status (status : string) (o : Order) : Order :=
  mkOrder (o_id o) (o_order_number o) (o_buyer_id o) (o_seller_id o)
    (o_total_amount o) status (o_shipping_address o) (o_notes o).

Definition set_status (id : nat) (status : string) (s : Store) : Store :=
  mkStore ((λ o, if decide (o_id o = id) then with_status status o else o)
             <$> orders s)
    (order_items s) (products s) (cart_items s) (payment_receipts s)
    (stripe_user_orders s) (next_order_id s) (requests s).

Definition add_receipt (r : PaymentReceipt) (s : Store) : Store :=
  mkStore (orders s) (order_items s) (products s) (cart_items s)
    (payment_receipts s ++ [r]) (stripe_user_orders s) (next_order_id s)
    (requests s).

(** A write whose outcome is [err]: the request is recorded, and the tables
    change only when the store reports no error. *)
Definition write (r : Request) (err : option Thrown) (f : Store → Store)
  : M (Reply unit) :=
  λ w, match err with
       | Some e => (Normal (mkReply None (Some e)), set_store (record r) w)
       | None => (Normal (mkReply (Some tt) None),
                  set_store (λ s, f (record r s)) w)
       end.

(** A read: the rows [rows] computes from the tables, or the error. *)
Definition read {A} (r : Request) (err : option Thrown) (rows : Store → A)
  : M (Reply A) :=
  λ w, match err with
       | Some e => (Normal (mkReply None (Some e)), set_store (record r) w)
       | None => (Normal (mkReply (Some (rows (store w))) None),
                  set_store (record r) w)
       end.

(** ** The hooks *)

Section Hooks.

Variable supabase : Backend.
Variable auth : Session.

(** *** Store calls, as the hooks spell them *)

(** [supabase.rpc('generate_order_number')] *)
Definition rpc_order_number (k : nat) : M (Reply string) :=
  λ w, (Normal (rpc_generate_order_number supabase k),
        set_store (record RpcGenerateOrderNumber) w).

(** [supabase.from('orders').insert({...}).select().single()]: the row comes
    back with its generated id and the default status. *)
Definition orders_insert (k : nat) (order_number buyer_id seller_id : string)
    (total_amount : num) (shipping_address : string) (notes : option string)
  : M (Reply Order) :=
  λ w, let r := OrdersInsert order_number buyer_id seller_id total_amount
                  shipping_address notes in
       match orders_insert_error supabase k with
       | Some e => (Normal (mkReply None (Some e)), set_store (record r) w)
       | None =>
           let o := mkOrder (next_order_id (store w)) order_number buyer_id
                      seller_id total_amount "pending" shipping_address notes in
           (Normal (mkReply (Some o) None),
            set_store (λ s, add_order o (record r s)) w)
       end.

(** [supabase.from('order_items').insert(orderItems)] *)
Definition order_items_insert (k : nat) (rows : list OrderItem)
  : M (Reply unit) :=
  write (OrderItemsInsert rows) (order_items_insert_error supabase k)
    (add_order_items rows).

(** [supabase.from('products').update({ stock_quantity }).eq('id', id)] *)
Definition products_update_stock (k i : nat) (id : string) (q : Z)
  : M (Reply unit) :=
  write (ProductsUpdateStock id q) (products_update_error supabase k i)
    (set_stock id q).

(** [supabase.from('cart_items').delete().eq('buyer_id', buyer_id)] *)
Definition cart_items_delete_buyer (buyer_id : string) : M (Reply unit) :=
  write (CartItemsDeleteBuyer buyer_id) (cart_items_delete_error supabase)
    (set_cart_items (filter (λ r, cr_buyer_id r ≠ buyer_id))).

(** [supabase.from('cart_items').delete().eq('id', id)] *)
Definition cart_items_delete_id (id : string) : M (Reply unit) :=
  write (CartItemsDeleteId id) (cart_items_delete_error supabase)
    (set_cart_items (filter (λ r, cr_id r ≠ id))).

(** [supabase.from('cart_items').update({ quantity }).eq('id', id)] *)
Definition cart_items_update_quantity (id : string) (q : Z) : M (Reply unit) :=
  write (CartItemsUpdateQuantity id q) (cart_items_update_error supabase)
    (set_cart_items
       (fmap (λ r, if decide (cr_id r = id) then with_quantity q r else r))).

(** [supabase.from('cart_items').select('*, product:products(...)')
      .eq('buyer_id', buyer_id)] *)
Definition cart_items_select (buyer_id : string)
  : M (Reply (list (CartRow * option Product))) :=
  read (CartItemsSelect buyer_id) (cart_items_select_error supabase)
    (λ s, (λ r, (r, head (filter (λ p, p_id p = cr_product_id r) (products s))))
            <$> filter (λ r, cr_buyer_id r = buyer_id) (cart_items s)).

(** [supabase.from('orders').update({ status }).eq('id', orderId)] *)
Definition orders_update_status (id : nat) (status : string) : M (Reply unit) :=
  write (OrdersUpdateStatus id status) (orders_update_error supabase)
    (set_status id status).

(** [supabase.from('payment_receipts').insert({...})] *)
Definition payment_receipts_insert (order_id : nat)
    (receipt_url uploaded_by : string) : M (Reply unit) :=
  write (PaymentReceiptsInsert order_id receipt_url uploaded_by)
    (payment_receipts_insert_error supabase)
    (add_receipt (mkPaymentReceipt order_id receipt_url uploaded_by "pending")).

(** The orders query of [fetchOrders]: filtered by role and, when
    [options.status] is truthy, by status; newest first.  The table keeps its
    rows in creation order, so [created_at] descending is the reversed
    table.  The joined relations are not kept. *)
Definition orders_query (uid : string) (role : Role) (status : option string)
    (s : Store) : list Order :=
  let by_role :=
    match role with
    | buyer => filter (λ o, o_buyer_id o = uid) (orders s)
    | seller => filter (λ o, o_seller_id o = uid) (orders s)
    end in
  let by_status :=
    match status with
    | Some st =>
        if decide (st = EmptyString) then by_role
        else filter (λ o, o_status o = st) by_role
    | None => by_role
    end in
  reverse by_status.

Definition orders_select (uid : string) (role : Role) (status : option string)
  : M (Reply (list Order)) :=
  read OrdersSelect (orders_select_error supabase) (orders_query uid role status).

(** [supabase.from('stripe_user_orders').select('*').order('order_date', ...)] *)
Definition stripe_user_orders_select : M (Reply (list StripeOrder)) :=
  read StripeUserOrdersSelect (stripe_user_orders_select_error supabase)
    stripe_user_orders.

(** *** State setters *)

Definition setOrders (v : list Order) : M unit :=
  modify (set_useOrders (λ s,
    mkOrdersState v (st_stripeOrders s) (st_loading s) (st_error s))).

Definition setStripeOrders (v : list StripeOrder) : M unit :=
  modify (set_useOrders (λ s,
    mkOrdersState (st_orders s) v (st_loading s) (st_error s))).

Definition setLoading (v : bool) : M unit :=
  modify (set_useOrders (λ s,
    mkOrdersState (st_orders s) (st_stripeOrders s) v (st_error s))).

Definition setError (v : option string) : M unit :=
  modify (set_useOrders (λ s,
    mkOrdersState (st_orders s) (st_stripeOrders s) (st_loading s) v)).

Definition setCartItems (v : list (CartRow * option Product)) : M unit :=
  modify (set_useCart (λ s,
    mkCartState v (st_cart_loading s) (st_cart_error s))).

Definition setCartLoading (v : bool) : M unit :=
  modify (set_useCart (λ s,
    mkCartState (st_cartItems s) v (st_cart_error s))).

Definition setCartError (v : option string) : M unit :=
  modify (set_useCart (λ s,
    mkCartState (st_cartItems s) (st_cart_loading s) v)).

(** *** useOrders *)

Definition fetchOrders : M unit :=
  match user auth, profile auth with
  | Some uid, Some profile_role =>
      try_finally
        (try_catch
           (_ <- setLoading true ;;
            _ <- setError None ;;
            let role := default profile_role (options_role auth) in
            r <- orders_select uid role (options_status auth) ;;
            match error r with
            | Some fetchError => throw fetchError
            | None =>
                _ <- setOrders (default [] (data r)) ;;
                r' <- stripe_user_orders_select ;;
                match error r' with
                | Some stripeError => ret tt      (* console.error only *)
                | None => setStripeOrders (default [] (data r'))
                end
            end)
           (λ err, setError (Some (message_or "Failed to fetch orders" err))))
        (setLoading false)
  | _, _ =>
      _ <- setOrders [] ;;
      _ <- setStripeOrders [] ;;
      setLoading false
  end.

(** The [reduce] callback of the grouping: [acc[sellerId]] is created on the
    first item of a seller and pushed to afterwards.  The object is kept as
    an association list in the order the keys were created, which is the
    order [Object.entries] walks them in (seller ids are UUIDs: no key is an
    array index and none names a property of [Object.prototype]). *)
Fixpoint push_item (sellerId : string) (item : CartItem)
    (acc : list (string * list CartItem)) : list (string * list CartItem) :=
  match acc with
  | [] => [(sellerId, [item])]
  | (s, items) :: rest =>
      if decide (s = sellerId) then (s, items ++ [item]) :: rest
      else (s, items) :: push_item sellerId item rest
  end.

Definition ordersBySeller (cartItems : list CartItem)
  : list (string * list CartItem) :=
  foldl (λ acc item, push_item (p_seller_id (ci_product item)) item acc)
    [] cartItems.

(** [items.reduce((sum, item) => sum + item.product.price * item.quantity, 0)] *)
Definition totalAmount (items : list CartItem) : num :=
  foldl (λ sum item,
           num_add sum (num_mul (p_price (ci_product item)) (ci_quantity item)))
    num_zero items.

(** [items.map(item => ({ order_id, product_id, quantity, unit_price,
    total_price }))] *)
Definition orderItems (order_id : nat) (items : list CartItem) : list OrderItem :=
  (λ item, mkOrderItem order_id (ci_product_id item) (ci_quantity item)
             (p_price (ci_product item))
             (num_mul (p_price (ci_product item)) (ci_quantity item)))
    <$> items.

(** The stock loop; the reply of each update is dropped. *)
Fixpoint update_stock (k i : nat) (items : list CartItem) : M unit :=
  match items with
  | [] => ret tt
  | item :: rest =>
      _ <- products_update_stock k i (ci_product_id item)
             (Z.max 0 (p_stock_quantity (ci_product item) - ci_quantity item)) ;;
      update_stock k (S i) rest
  end.

(** The body of the loop over the seller groups, for the [k]-th group. *)
Definition create_seller_order (uid shippingAddress : string)
    (notes : option string) (k : nat) (sellerId : string)
    (items : list CartItem) : M Order :=
  let total := totalAmount items in
  r <- rpc_order_number k ;;
  let orderNumber :=
    or_else (data r) ("ORD-" +:+ pretty (Date_now supabase k)) in
  r' <- orders_insert k orderNumber uid sellerId total shippingAddress notes ;;
  match error r' with
  | Some orderError => throw orderError
  | None =>
      match data r' with
      | None => throw (new_Error "Cannot read properties of null (reading 'id')")
      | Some order =>
          r'' <- order_items_insert k (orderItems (o_id order) items) ;;
          match error r'' with
          | Some itemsError => throw itemsError
          | None =>
              _ <- update_stock k 0 items ;;
              ret order
          end
      end
  end.

Fixpoint create_orders (uid shippingAddress : string) (notes : option string)
    (k : nat) (groups : list (string * list CartItem))
    (createdOrders : list Order) : M (list Order) :=
  match groups with
  | [] => ret createdOrders
  | (sellerId, items) :: rest =>
      order <- create_seller_order uid shippingAddress notes k sellerId items ;;
      create_orders uid shippingAddress notes (S k) rest
        (createdOrders ++ [order])
  end.

Definition createOrder (cartItems : list CartItem) (shippingAddress : string)
    (notes : option string) : M (list Order) :=
  match user auth with
  | None => throw (new_Error "User not authenticated")
  | Some uid =>
      try_catch
        (createdOrders <-
           create_orders uid shippingAddress notes 0 (ordersBySeller cartItems) [] ;;
         _ <- cart_items_delete_buyer uid ;;
         _ <- fetchOrders ;;
         ret createdOrders)
        (λ err, throw (new_Error (message_or "Failed to create order" err)))
  end.

Definition updateOrderStatus (orderId : nat) (status : string) : M unit :=
  try_catch
    (r <- orders_update_status orderId status ;;
     match error r with
     | Some e => throw e
     | None => fetchOrders
     end)
    (λ err, throw (new_Error (message_or "Failed to update order status" err))).

Definition uploadPaymentReceipt (orderId : nat) (receiptUrl : string) : M unit :=
  match user auth with
  | None => throw (new_Error "User not authenticated")
  | Some uid =>
      try_catch
        (r <- payment_receipts_insert orderId receiptUrl uid ;;
         match error r with
         | Some e => throw e
         | None => fetchOrders
         end)
        (λ err, throw (new_Error (message_or "Failed to upload receipt" err)))
  end.

(** *** useCart *)

Definition fetchCartItems : M unit :=
  match user auth with
  | None =>
      _ <- setCartItems [] ;;
      setCartLoading false
  | Some uid =>
      try_finally
        (try_catch
           (_ <- setCartLoading true ;;
            _ <- setCartError None ;;
            r <- cart_items_select uid ;;
            match error r with
            | Some fetchError => throw fetchError
            | None => setCartItems (default [] (data r))
            end)
           (λ err,
              setCartError (Some (message_or "Failed to fetch cart items" err))))
        (setCartLoading false)
  end.

Definition removeFromCart (cartItemId : string) : M unit :=
  try_catch
    (r <- cart_items_delete_id cartItemId ;;
     match error r with
     | Some e => throw e
     | None => fetchCartItems
     end)
    (λ err, throw (new_Error (message_or "Failed to remove from cart" err))).

Definition updateQuantity (cartItemId : string) (quantity : Z) : M unit :=
  if decide (quantity ≤ 0)%Z then removeFromCart cartItemId
  else
    try_catch
      (r <- cart_items_update_quantity cartItemId quantity ;;
       match error r with
       | Some e => throw e
       | None => fetchCartItems
       end)
      (λ err, throw (new_Error (message_or "Failed to update quantity" err))).

End Hooks.

(** ** Grouping by seller *)

(** [item.product.seller_id] *)
Definition seller_of (item : CartItem) : string := p_seller_id (ci_product item).

(** The number of distinct seller ids among the items of a cart. *)
Definition distinct_sellers (cartItems : list CartItem) : nat :=
  length (remove_dups (seller_of <$> cartItems)).

Section Grouping.

Implicit Types (acc groups : list (string * list CartItem)).
Implicit Types (item : CartItem) (cart items : list CartItem).

Lemma push_item_keys sellerId item acc :
  (push_item sellerId item acc).*1 =
    if decide (sellerId ∈ acc.*1) then acc.*1 else acc.*1 ++ [sellerId].
Proof.
  induction acc as [|[s items] acc IH].
  - done.
  - cbn [push_item]. destruct (decide (s = sellerId)) as [->|Hne].
    + rewrite decide_True; [done | rewrite fmap_cons; left].
    + rewrite !fmap_cons, IH. cbn [fst].
      destruct (decide (sellerId ∈ acc.*1)) as [Hin|Hnin].
      * rewrite decide_True; [done | by right].
      * rewrite decide_False; [done |].
        rewrite elem_of_cons. intros [->|?]; done.
Qed.

Lemma push_item_NoDup sellerId item acc :
  NoDup acc.*1 → NoDup (push_item sellerId item acc).*1.
Proof.
  intros Hnd. rewrite push_item_keys. case_decide; [done |].
  apply NoDup_app. split_and!; [done | | apply NoDup_singleton].
  intros x Hx Hx'. apply list_elem_of_singleton in Hx' as ->. done.
Qed.

Lemma push_item_key_elem sellerId item acc s :
  s ∈ (push_item sellerId item acc).*1 ↔ s = sellerId ∨ s ∈ acc.*1.
Proof.
  rewrite push_item_keys. case_decide.
  - split; [by right | intros [->|?]; done].
  - rewrite elem_of_app, list_elem_of_singleton. tauto.
Qed.

(** A property of the items that holds group by group survives a push. *)
Lemma push_item_Forall (P : string → CartItem → Prop) sellerId item acc :
  P sellerId item →
  Forall (λ g, Forall (P g.1) g.2) acc →
  Forall (λ g, Forall (P g.1) g.2) (push_item sellerId item acc).
Proof.
  intros HP. induction 1 as [|[s items] acc Hg Hacc IH]; simpl.
  - repeat constructor. done.
  - case_decide as Hs; simpl.
    + subst s. constructor; [|done]. simpl in *.
      apply Forall_app. split; [done | by constructor].
    + constructor; done.
Qed.

Lemma push_item_items sellerId item acc x :
  x ∈ mjoin acc.*2 ∨ x = item ↔
  x ∈ mjoin (push_item sellerId item acc).*2.
Proof.
  induction acc as [|[s items] acc IH]; cbn [push_item].
  - cbn. rewrite elem_of_nil, list_elem_of_singleton. tauto.
  - case_decide; rewrite !fmap_cons; cbn.
    + rewrite !elem_of_app, list_elem_of_singleton. tauto.
    + rewrite !elem_of_app, <- IH. tauto.
Qed.

Lemma foldl_push_keys cart acc :
  NoDup acc.*1 →
  let groups := foldl (λ acc item, push_item (seller_of item) item acc) acc cart in
  NoDup groups.*1 ∧
  ∀ s, s ∈ groups.*1 ↔ s ∈ acc.*1 ∨ s ∈ seller_of <$> cart.
Proof.
  revert acc. induction cart as [|item cart IH]; intros acc Hnd; simpl.
  - split; [done |]. intros s. rewrite elem_of_nil. tauto.
  - destruct (IH (push_item (seller_of item) item acc)) as [Hnd' Hel].
    { by apply push_item_NoDup. }
    split; [done |]. intros s. rewrite Hel, push_item_key_elem, elem_of_cons.
    tauto.
Qed.

Lemma foldl_push_Forall (P : string → CartItem → Prop) cart acc :
  Forall (λ item, P (seller_of item) item) cart →
  Forall (λ g, Forall (P g.1) g.2) acc →
  Forall (λ g, Forall (P g.1) g.2)
    (foldl (λ acc item, push_item (seller_of item) item acc) acc cart).
Proof.
  intros Hcart. revert acc.
  induction Hcart as [|item cart Hitem Hcart IH]; intros acc Hacc; simpl.
  - done.
  - apply IH. by apply push_item_Forall.
Qed.

Lemma foldl_push_items cart acc x :
  x ∈ mjoin acc.*2 ∨ x ∈ cart ↔
  x ∈ mjoin (foldl (λ acc item, push_item (seller_of item) item acc) acc cart).*2.
Proof.
  revert acc. induction cart as [|item cart IH]; intros acc; simpl.
  - rewrite elem_of_nil. tauto.
  - rewrite <- IH, <- push_item_items, elem_of_cons. tauto.
Qed.

(** One group per distinct seller id. *)
Lemma ordersBySeller_length cart :
  length (ordersBySeller cart) = distinct_sellers cart.
Proof.
  unfold distinct_sellers.
  destruct (foldl_push_keys cart []) as [Hnd Hel]; [constructor |].
  rewrite <- (length_fmap fst). apply Permutation_length.
  apply NoDup_Permutation; [done | apply NoDup_remove_dups |].
  intros s. unfold ordersBySeller, seller_of in *.
  rewrite Hel, elem_of_remove_dups, elem_of_nil. tauto.
Qed.

Lemma ordersBySeller_NoDup cart : NoDup (ordersBySeller cart).*1.
Proof. by destruct (foldl_push_keys cart []) as [Hnd _]; [constructor |]. Qed.

Lemma ordersBySeller_sellers cart s :
  s ∈ (ordersBySeller cart).*1 ↔ ∃ item, item ∈ cart ∧ seller_of item = s.
Proof.
  destruct (foldl_push_keys cart []) as [_ Hel]; [constructor |].
  unfold ordersBySeller, seller_of in *.
  rewrite Hel. split.
  - intros [Hs|Hs]; [by apply elem_of_nil in Hs |].
    apply list_elem_of_fmap in Hs as (item & -> & Hitem). eauto.
  - intros (item & Hitem & <-). right. apply list_elem_of_fmap. eauto.
Qed.

(** The items of a group come from the cart and are all of its seller. *)
Lemma ordersBySeller_group cart sellerId items item :
  (sellerId, items) ∈ ordersBySeller cart → item ∈ items →
  item ∈ cart ∧ seller_of item = sellerId.
Proof.
  intros Hg Hitem.
  assert (Forall (λ g, Forall (λ item, item ∈ cart ∧ seller_of item = g.1) g.2)
            (ordersBySeller cart)) as HF.
  { apply (foldl_push_Forall (λ s item, item ∈ cart ∧ seller_of item = s)).
    - apply Forall_forall. done.
    - constructor. }
  rewrite Forall_forall in HF. specialize (HF _ Hg).
  rewrite Forall_forall in HF. by apply HF.
Qed.

(** No group is empty. *)
Lemma ordersBySeller_nonempty cart sellerId items :
  (sellerId, items) ∈ ordersBySeller cart → items ≠ [].
Proof.
  assert (∀ s item acc, Forall (λ g, g.2 ≠ []) acc →
            Forall (λ g, g.2 ≠ []) (push_item s item acc)) as Hpush.
  { intros s item acc. induction 1 as [|[s' items'] acc Hg Hacc IH]; simpl.
    - repeat constructor. done.
    - case_decide; constructor; try done. simpl. by destruct items'. }
  assert (∀ acc, Forall (λ g, g.2 ≠ []) acc →
            Forall (λ g, g.2 ≠ [])
              (foldl (λ acc item, push_item (seller_of item) item acc) acc cart))
    as Hfold.
  { induction cart as [|item cart IH]; intros acc Hacc; simpl; [done |].
    apply IH, Hpush, Hacc. }
  intros Hg. specialize (Hfold [] ltac:(constructor)).
  rewrite Forall_forall in Hfold. apply (Hfold _ Hg).
Qed.

(** Every item of the cart lands in a group. *)
Lemma ordersBySeller_covers cart item :
  item ∈ cart → ∃ sellerId items,
    (sellerId, items) ∈ ordersBySeller cart ∧ item ∈ items.
Proof.
  intros Hin.
  assert (item ∈ mjoin (ordersBySeller cart).*2)
    as Hc by (apply foldl_push_items; by right).
  apply list_elem_of_join in Hc as (items & Hitem & Hitems).
  apply list_elem_of_fmap in Hitems as ([s items'] & -> & Hg).
  by exists s, items'.
Qed.

End Grouping.

(** ** One seller group *)

Section Checkout.

Variable supabase : Backend.
Variable auth : Session.
Variables (uid shippingAddress : string) (notes : option string).

Implicit Types (item : CartItem) (items : list CartItem).
Implicit Types (groups : list (string * list CartItem)).
Implicit Types (s : Store) (w : World).

(** The request of the stock loop for one item. *)
Definition stock_write item : Request :=
  ProductsUpdateStock (ci_product_id item)
    (Z.max 0 (p_stock_quantity (ci_product item) - ci_quantity item)).

(** The store after the stock loop over [items], started at position [i]. *)
Fixpoint stock_written (k i : nat) items s : Store :=
  match items with
  | [] => s
  | item :: rest =>
      stock_written k (S i) rest
        (match products_update_error supabase k i with
         | Some _ => record (stock_write item) s
         | None =>
             set_stock (ci_product_id item)
               (Z.max 0 (p_stock_quantity (ci_product item) - ci_quantity item))
               (record (stock_write item) s)
         end)
  end.

Definition order_number (k : nat) : string :=
  or_else (data (rpc_generate_order_number supabase k))
    ("ORD-" +:+ pretty (Date_now supabase k)).

(** The row the [k]-th insert into [orders] yields when the next id is [nid]. *)
Definition new_order (k : nat) (sellerId : string) items (nid : nat) : Order :=
  mkOrder nid (order_number k) uid sellerId (totalAmount items) "pending"
    shippingAddress notes.

(** The store at the three places where the body of the loop can stop:
    the order insert refused, the items insert refused, the group done. *)
Definition order_refused (k : nat) (sellerId : string) items s : Store :=
  record (OrdersInsert (order_number k) uid sellerId (totalAmount items)
            shippingAddress notes)
    (record RpcGenerateOrderNumber s).

Definition items_refused (k : nat) (sellerId : string) items s : Store :=
  record (OrderItemsInsert (orderItems (next_order_id s) items))
    (add_order (new_order k sellerId items (next_order_id s))
       (order_refused k sellerId items s)).

Definition group_done (k : nat) (sellerId : string) items s : Store :=
  stock_written k 0 items
    (add_order_items (orderItems (next_order_id s) items)
       (items_refused k sellerId items s)).

Lemma update_stock_run k i items w :
  update_stock supabase k i items w =
    (Normal tt, set_store (stock_written k i items) w).
Proof.
  revert i w. induction items as [|item rest IH]; intros i w; simpl.
  - by destruct w.
  - unfold bind, products_update_stock, write.
    destruct (products_update_error supabase k i); rewrite IH; done.
Qed.

(** The body of the loop, case by case. *)
Lemma create_seller_order_run k sellerId items w :
  create_seller_order supabase uid shippingAddress notes k sellerId items w =
    match orders_insert_error supabase k with
    | Some e => (Throw e, set_store (order_refused k sellerId items) w)
    | None =>
        match order_items_insert_error supabase k with
        | Some e => (Throw e, set_store (items_refused k sellerId items) w)
        | None =>
            (Normal (new_order k sellerId items (next_order_id (store w))),
             set_store (group_done k sellerId items) w)
        end
    end.
Proof.
  unfold create_seller_order, bind, rpc_order_number, orders_insert,
    order_items_insert, write, throw, ret.
  destruct (orders_insert_error supabase k); [done |]. simpl.
  destruct (order_items_insert_error supabase k); [done |]. simpl.
  rewrite update_stock_run. done.
Qed.

(** *** What the stock loop leaves alone, and what it asks for *)

Lemma stock_written_orders k i items s :
  orders (stock_written k i items s) = orders s.
Proof.
  revert i s. induction items as [|item rest IH]; intros i s; simpl; [done |].
  rewrite IH. by destruct (products_update_error supabase k i).
Qed.

Lemma stock_written_order_items k i items s :
  order_items (stock_written k i items s) = order_items s.
Proof.
  revert i s. induction items as [|item rest IH]; intros i s; simpl; [done |].
  rewrite IH. by destruct (products_update_error supabase k i).
Qed.

Lemma stock_written_cart_items k i items s :
  cart_items (stock_written k i items s) = cart_items s.
Proof.
  revert i s. induction items as [|item rest IH]; intros i s; simpl; [done |].
  rewrite IH. by destruct (products_update_error supabase k i).
Qed.

Lemma stock_written_next_order_id k i items s :
  next_order_id (stock_written k i items s) = next_order_id s.
Proof.
  revert i s. induction items as [|item rest IH]; intros i s; simpl; [done |].
  rewrite IH. by destruct (products_update_error supabase k i).
Qed.

Lemma stock_written_requests k i items s :
  requests (stock_written k i items s) = requests s ++ (stock_write <$> items).
Proof.
  revert i s. induction items as [|item rest IH]; intros i s; simpl.
  - by rewrite app_nil_r.
  - rewrite IH, cons_middle, app_assoc.
    by destruct (products_update_error supabase k i).
Qed.

(** ** The loop over the seller groups *)

(** The rows the loop creates when nothing is refused, group after group. *)
Fixpoint new_orders (k : nat) groups (nid : nat) : list Order :=
  match groups with
  | [] => []
  | (sellerId, items) :: rest =>
      new_order k sellerId items nid :: new_orders (S k) rest (S nid)
  end.

Fixpoint new_items groups (nid : nat) : list OrderItem :=
  match groups with
  | [] => []
  | (_, items) :: rest => orderItems nid items ++ new_items rest (S nid)
  end.

Fixpoint groups_done (k : nat) groups s : Store :=
  match groups with
  | [] => s
  | (sellerId, items) :: rest =>
      groups_done (S k) rest (group_done k sellerId items s)
  end.

(** The store accepts both inserts of the [n] groups from position [k] on. *)
Definition accepted (k n : nat) : Prop :=
  ∀ j, j < n →
    orders_insert_error supabase (k + j) = None ∧
    order_items_insert_error supabase (k + j) = None.

Lemma accepted_S k n : accepted k (S n) → accepted (S k) n.
Proof.
  intros Hacc j Hj. replace (S k + j) with (k + S j) by lia. apply Hacc. lia.
Qed.

Lemma accepted_0 k n :
  accepted k (S n) →
  orders_insert_error supabase k = None ∧
  order_items_insert_error supabase k = None.
Proof. intros Hacc. rewrite <- (Nat.add_0_r k). apply Hacc. lia. Qed.

Lemma group_done_next_order_id k sellerId items s :
  next_order_id (group_done k sellerId items s) = S (next_order_id s).
Proof. unfold group_done. by rewrite stock_written_next_order_id. Qed.

Lemma create_orders_run groups k created w :
  accepted k (length groups) →
  create_orders supabase uid shippingAddress notes k groups created w =
    (Normal (created ++ new_orders k groups (next_order_id (store w))),
     set_store (groups_done k groups) w).
Proof.
  revert k created w.
  induction groups as [|[sellerId items] rest IH]; intros k created w Hacc.
  - simpl. rewrite app_nil_r. by destruct w.
  - simpl. unfold bind. rewrite create_seller_order_run.
    destruct (accepted_0 _ _ Hacc) as [-> ->].
    rewrite IH by by apply accepted_S.
    simpl. rewrite group_done_next_order_id, <- app_assoc. done.
Qed.

Lemma create_orders_app pre post k created w :
  create_orders supabase uid shippingAddress notes k (pre ++ post) created w =
    match create_orders supabase uid shippingAddress notes k pre created w with
    | (Normal created', w') =>
        create_orders supabase uid shippingAddress notes (k + length pre) post
          created' w'
    | (Throw e, w') => (Throw e, w')
    end.
Proof.
  revert k created w.
  induction pre as [|[sellerId items] pre IH]; intros k created w; simpl.
  - by rewrite Nat.add_0_r.
  - unfold bind.
    destruct (create_seller_order _ _ _ _ _ _ _ w) as [[order|e] w1]; [|done].
    rewrite IH. by replace (S k + length pre) with (k + S (length pre)) by lia.
Qed.


(** *** The tables after the loop *)

Lemma groups_done_next_order_id k groups s :
  next_order_id (groups_done k groups s) = next_order_id s + length groups.
Proof.
  revert k s. induction groups as [|[sellerId items] rest IH]; intros k s; simpl.
  - lia.
  - rewrite IH, group_done_next_order_id. lia.
Qed.

Lemma groups_done_orders k groups s :
  orders (groups_done k groups s) =
    orders s ++ new_orders k groups (next_order_id s).
Proof.
  revert k s. induction groups as [|[sellerId items] rest IH]; intros k s; simpl.
  - by rewrite app_nil_r.
  - rewrite IH, group_done_next_order_id. unfold group_done.
    rewrite stock_written_orders. simpl. by rewrite <- app_assoc.
Qed.

Lemma groups_done_order_items k groups s :
  order_items (groups_done k groups s) =
    order_items s ++ new_items groups (next_order_id s).
Proof.
  revert k s. induction groups as [|[sellerId items] rest IH]; intros k s; simpl.
  - by rewrite app_nil_r.
  - rewrite IH, group_done_next_order_id. unfold group_done.
    rewrite stock_written_order_items. simpl. by rewrite <- app_assoc.
Qed.

Lemma groups_done_cart_items k groups s :
  cart_items (groups_done k groups s) = cart_items s.
Proof.
  revert k s. induction groups as [|[sellerId items] rest IH]; intros k s; simpl.
  - done.
  - rewrite IH. unfold group_done. by rewrite stock_written_cart_items.
Qed.

(** The loop appends its requests, among them the stock write of every item
    of every group. *)
Lemma groups_done_issued k groups s :
  ∃ l, requests (groups_done k groups s) = requests s ++ l ∧
       ∀ sellerId items item,
         (sellerId, items) ∈ groups → item ∈ items → stock_write item ∈ l.
Proof.
  revert k s. induction groups as [|[sellerId' items'] rest IH]; intros k s.
  - exists []. split; [by rewrite app_nil_r |].
    intros ??? Hg. by apply elem_of_nil in Hg.
  - simpl. destruct (IH (S k) (group_done k sellerId' items' s)) as (l & Hl & Hin).
    unfold group_done in Hl at 2. rewrite stock_written_requests in Hl.
    simpl in Hl. rewrite <- !app_assoc in Hl. eexists. split; [exact Hl |].
    intros sellerId items item Hg Hi. rewrite !elem_of_app.
    apply elem_of_cons in Hg as [[= -> ->]|Hg]; [|by eauto 10].
    right. right. right. left. by apply list_elem_of_fmap_2.
Qed.

(** *** Rows by position *)

Lemma new_orders_lookup groups k nid j :
  new_orders k groups nid !! j =
    (λ g, new_order (k + j) g.1 g.2 (nid + j)) <$> groups !! j.
Proof.
  revert k nid j.
  induction groups as [|[sellerId items] rest IH]; intros k nid [|j]; simpl.
  - done.
  - done.
  - by rewrite !Nat.add_0_r.
  - rewrite IH. by replace (S k + j) with (k + S j) by lia;
      replace (S nid + j) with (nid + S j) by lia.
Qed.

Lemma new_orders_length groups k nid :
  length (new_orders k groups nid) = length groups.
Proof.
  revert k nid. induction groups as [|[sellerId items] rest IH]; intros k nid.
  - done.
  - simpl. by rewrite IH.
Qed.

Lemma new_orders_sellers groups k nid :
  o_seller_id <$> new_orders k groups nid = groups.*1.
Proof.
  revert k nid. induction groups as [|[sellerId items] rest IH]; intros k nid.
  - done.
  - simpl. by rewrite IH.
Qed.

(** The rows of [new_items] that point at the order of the [j]-th group are
    the rows made from that group. *)
Lemma new_items_of_order groups nid j sellerId items :
  groups !! j = Some (sellerId, items) →
  filter (λ oi, oi_order_id oi = nid + j) (new_items groups nid) =
    orderItems (nid + j) items.
Proof.
  assert (∀ items' n m, n ≠ m →
    filter (λ oi, oi_order_id oi = m) (orderItems n items') = []) as Hother.
  { intros items' n m Hnm. induction items' as [|item items' IH]; [done |].
    unfold orderItems in *. rewrite fmap_cons, filter_cons_False; done. }
  assert (∀ items' n,
    filter (λ oi, oi_order_id oi = n) (orderItems n items') = orderItems n items')
    as Hsame.
  { intros items' n. induction items' as [|item items' IH]; [done |].
    unfold orderItems in *. rewrite fmap_cons, filter_cons_True by done.
    by rewrite IH. }
  assert (∀ gs n m, m < n →
    filter (λ oi, oi_order_id oi = m) (new_items gs n) = []) as Hlater.
  { intros gs. induction gs as [|[s' items'] gs IH]; intros n m Hm; [done |].
    simpl. rewrite filter_app, Hother, IH by lia. done. }
  revert nid j.
  induction groups as [|[s' items'] rest IH]; intros nid [|j] Hj; simpl in *.
  - done.
  - done.
  - injection Hj as -> ->. rewrite Nat.add_0_r, filter_app, Hsame, Hlater by lia.
    by rewrite app_nil_r.
  - rewrite filter_app, Hother by lia. simpl.
    replace (nid + S j) with (S nid + j) by lia. by apply IH.
Qed.

(** *** What holds of the loop whatever the store answers *)

(** The requests the loop can make over items that satisfy [Q]. *)
Definition loop_request (Q : CartItem → Prop) (r : Request) : Prop :=
  match r with
  | RpcGenerateOrderNumber | OrdersInsert _ _ _ _ _ _ | OrderItemsInsert _ => True
  | ProductsUpdateStock _ _ => ∃ item, Q item ∧ r = stock_write item
  | _ => False
  end.

Section Invariant.

Variable I : Store → Prop.
Variable Q : CartItem → Prop.
Hypothesis I_record : ∀ r s, loop_request Q r → I s → I (record r s).
Hypothesis I_add_order : ∀ o s, I s → I (add_order o s).
Hypothesis I_add_order_items : ∀ rows s, I s → I (add_order_items rows s).
Hypothesis I_set_stock : ∀ item s, Q item → I s →
  I (set_stock (ci_product_id item)
       (Z.max 0 (p_stock_quantity (ci_product item) - ci_quantity item)) s).

Lemma stock_written_invariant k i items s :
  Forall Q items → I s → I (stock_written k i items s).
Proof.
  intros HQ. revert i s.
  induction HQ as [|item rest Hitem Hrest IH]; intros i s Hs; simpl; [done |].
  assert (I (record (stock_write item) s)) as Hrec.
  { apply I_record; [|done]. simpl. eauto. }
  apply IH. destruct (products_update_error supabase k i); auto.
Qed.

Lemma create_orders_invariant groups k created w :
  Forall (λ g, Forall Q g.2) groups → I (store w) →
  I (store (create_orders supabase uid shippingAddress notes k groups created w).2).
Proof.
  intros HQ. revert k created w.
  induction HQ as [|[sellerId items] rest Hitems Hrest IH]; intros k created w Hw.
  - done.
  - simpl. unfold bind. rewrite create_seller_order_run.
    assert (I (order_refused k sellerId items (store w))) as Hrefused.
    { unfold order_refused. do 2 (apply I_record; [done |]). done. }
    assert (I (items_refused k sellerId items (store w))) as Hrefused'.
    { unfold items_refused. apply I_record; [done |]. by apply I_add_order. }
    destruct (orders_insert_error supabase k); [done |].
    destruct (order_items_insert_error supabase k); [done |].
    apply IH. simpl. unfold group_done.
    apply stock_written_invariant; [done |]. by apply I_add_order_items.
Qed.

End Invariant.

(** The loop touches neither the cart table nor the state of the hooks. *)
Lemma create_orders_cart_items groups k created w :
  cart_items (store
    (create_orders supabase uid shippingAddress notes k groups created w).2)
  = cart_items (store w).
Proof.
  apply (create_orders_invariant (λ s, cart_items s = cart_items (store w))
           (λ _, True)); try done.
  apply Forall_forall. intros g _. by apply Forall_forall.
Qed.

(** The requests of a world [w'] that were made after [w]. *)
Definition issued (w w' : World) : list Request :=
  drop (length (requests (store w))) (requests (store w')).

Lemma issued_app w w' l :
  requests (store w') = requests (store w) ++ l → issued w w' = l.
Proof. intros Hl. unfold issued. rewrite Hl. apply drop_app_length. Qed.

(** The loop only appends to the list of requests, and what it appends are
    requests of the loop. *)
Lemma create_orders_requests groups k created w (Q : CartItem → Prop) :
  Forall (λ g, Forall Q g.2) groups →
  ∃ l, requests (store
         (create_orders supabase uid shippingAddress notes k groups created w).2)
       = requests (store w) ++ l ∧ Forall (loop_request Q) l.
Proof.
  intros HQ.
  apply (create_orders_invariant
           (λ s, ∃ l, requests s = requests (store w) ++ l ∧
                      Forall (loop_request Q) l) Q); try done.
  - intros r s Hr (l & Hl & HF). exists (l ++ [r]). simpl.
    rewrite Hl, app_assoc. split; [done |].
    apply Forall_app. split; [done | by constructor].
  - exists []. by rewrite app_nil_r.
Qed.

(** *** The reload of the order list *)

Definition records (l : list Request) (s : Store) : Store :=
  foldl (λ s r, record r s) s l.

(** The reads [fetchOrders] makes. *)
Definition fetch_requests : list Request :=
  match user auth, profile auth with
  | Some _, Some _ =>
      match orders_select_error supabase with
      | Some _ => [OrdersSelect]
      | None => [OrdersSelect; StripeUserOrdersSelect]
      end
  | _, _ => []
  end.

(** [fetchOrders] never throws and leaves the tables alone. *)
Lemma fetchOrders_run w :
  ∃ st, fetchOrders supabase auth w =
          (Normal tt,
           mkWorld (records fetch_requests (store w)) st (useCart_state w)).
Proof.
  unfold fetchOrders, fetch_requests, records, try_finally, try_catch, bind,
    orders_select, stripe_user_orders_select, read, setLoading, setError,
    setOrders, setStripeOrders, modify, throw, ret.
  destruct w as [s st c].
  destruct (user auth), (profile auth); simpl; try by eexists.
  destruct (orders_select_error supabase); simpl; [by eexists |].
  destruct (stripe_user_orders_select_error supabase); simpl; by eexists.
Qed.

Lemma records_requests l s : requests (records l s) = requests s ++ l.
Proof.
  revert s. induction l as [|r l IH]; intros s; simpl.
  - by rewrite app_nil_r.
  - unfold records in *. rewrite IH. simpl. by rewrite <- app_assoc.
Qed.

Lemma records_tables l s :
  orders (records l s) = orders s ∧
  order_items (records l s) = order_items s ∧
  products (records l s) = products s ∧
  cart_items (records l s) = cart_items s.
Proof.
  revert s. induction l as [|r l IH]; intros s; [done |].
  unfold records in *. simpl. destruct (IH (record r s)) as (-> & -> & -> & ->).
  done.
Qed.

Lemma fetch_requests_reads : Forall (λ r, is_write r = false) fetch_requests.
Proof.
  unfold fetch_requests.
  destruct (user auth), (profile auth); try constructor;
    destruct (orders_select_error supabase); repeat constructor.
Qed.

(** *** The whole of [createOrder] *)

(** The store after the cart delete that follows the loop. *)
Definition cart_cleared s : Store :=
  match cart_items_delete_error supabase with
  | Some _ => record (CartItemsDeleteBuyer uid) s
  | None =>
      set_cart_items (filter (λ r, cr_buyer_id r ≠ uid))
        (record (CartItemsDeleteBuyer uid) s)
  end.

Lemma createOrder_run cart w :
  user auth = Some uid →
  createOrder supabase auth cart shippingAddress notes w =
    match create_orders supabase uid shippingAddress notes 0
            (ordersBySeller cart) [] w with
    | (Normal createdOrders, w1) =>
        (Normal createdOrders,
         (fetchOrders supabase auth (set_store cart_cleared w1)).2)
    | (Throw e, w1) =>
        (Throw (new_Error (message_or "Failed to create order" e)), w1)
    end.
Proof.
  intros Huser. unfold createOrder. rewrite Huser.
  unfold try_catch, bind at 1.
  destruct (create_orders _ _ _ _ _ _ _ w) as [[createdOrders|e] w1]; [|done].
  assert (∃ r, cart_items_delete_buyer supabase uid w1 =
               (Normal r, set_store cart_cleared w1)) as [r Hr].
  { unfold cart_items_delete_buyer, write, cart_cleared.
    destruct (cart_items_delete_error supabase); by eexists. }
  unfold bind. rewrite Hr.
  by destruct (fetchOrders_run (set_store cart_cleared w1)) as [st ->].
Qed.

End Checkout.

(** ** Outcomes of [createOrder] *)

Implicit Types (be : Backend) (sess : Session) (w : World) (s : Store).
Implicit Types (cart : list CartItem) (uid addr : string) (notes : option string).

(** The rows of [order_items] that belong to an order. *)
Definition order_items_of (o : Order) s : list OrderItem :=
  filter (λ oi, oi_order_id oi = o_id o) (order_items s).

(** [order_items] references orders that exist: no row points at an id the
    store has yet to hand out. *)
Definition items_reference_orders s : Prop :=
  ∀ oi, oi ∈ order_items s → oi_order_id oi < next_order_id s.

(** The store when the checkout is over: groups done, cart delete asked,
    order list reloaded. *)
Definition checked_out be sess uid addr notes cart s : Store :=
  records (fetch_requests be sess)
    (cart_cleared be uid (groups_done be uid addr notes 0 (ordersBySeller cart) s)).

(** When every insert is accepted the checkout goes through. *)
Lemma createOrder_accepted be sess uid addr notes cart w :
  user sess = Some uid →
  accepted be 0 (length (ordersBySeller cart)) →
  (createOrder be sess cart addr notes w).1 =
    Normal (new_orders be uid addr notes 0 (ordersBySeller cart)
              (next_order_id (store w))) ∧
  store (createOrder be sess cart addr notes w).2 =
    checked_out be sess uid addr notes cart (store w).
Proof.
  intros Huser Hacc. rewrite (createOrder_run _ _ uid) by done.
  rewrite create_orders_run by done. simpl.
  destruct (fetchOrders_run be sess
              (set_store (cart_cleared be uid)
                 (set_store (groups_done be uid addr notes 0 (ordersBySeller cart)) w)))
    as [st ->].
  done.
Qed.


(** A checkout that stops at the group after [pre]: the error the store gave
    comes back wrapped, and the store is left as it was when the insert was
    refused. *)
Lemma createOrder_refused be sess uid addr notes cart w pre sellerId items post e :
  user sess = Some uid →
  ordersBySeller cart = pre ++ (sellerId, items) :: post →
  accepted be 0 (length pre) →
  orders_insert_error be (length pre) = Some e ∨
  (orders_insert_error be (length pre) = None ∧
   order_items_insert_error be (length pre) = Some e) →
  createOrder be sess cart addr notes w =
    (Throw (new_Error (message_or "Failed to create order" e)),
     set_store
       (λ s, match orders_insert_error be (length pre) with
             | Some _ => order_refused
             | None => items_refused
             end be uid addr notes (length pre) sellerId items
               (groups_done be uid addr notes 0 pre s)) w).
Proof.
  intros Huser Hgroups Hacc Hfail. rewrite (createOrder_run _ _ uid) by done.
  rewrite Hgroups, create_orders_app, create_orders_run by done.
  simpl. unfold bind. rewrite create_seller_order_run.
  destruct Hfail as [->|[-> ->]]; done.
Qed.

Lemma checked_out_tables be sess uid addr notes cart s :
  let s' := checked_out be sess uid addr notes cart s in
  orders s' =
    orders s ++ new_orders be uid addr notes 0 (ordersBySeller cart)
                  (next_order_id s) ∧
  order_items s' =
    order_items s ++ new_items (ordersBySeller cart) (next_order_id s) ∧
  cart_items s' =
    match cart_items_delete_error be with
    | Some _ => cart_items s
    | None => filter (λ r, cr_buyer_id r ≠ uid) (cart_items s)
    end ∧
  requests s' =
    requests (groups_done be uid addr notes 0 (ordersBySeller cart) s)
      ++ CartItemsDeleteBuyer uid :: fetch_requests be sess.
Proof.
  unfold checked_out. simpl.
  destruct (records_tables (fetch_requests be sess)
              (cart_cleared be uid
                 (groups_done be uid addr notes 0 (ordersBySeller cart) s)))
    as (-> & -> & _ & ->).
  rewrite records_requests. unfold cart_cleared.
  destruct (cart_items_delete_error be); simpl;
    rewrite groups_done_orders, groups_done_order_items, groups_done_cart_items,
      <- app_assoc; done.
Qed.

Lemma filter_none {A} (P : A → Prop) `{∀ x, Decision (P x)} (l : list A) :
  Forall (λ x, ¬ P x) l → filter P l = [].
Proof.
  induction 1 as [|x l Hx Hl IH]; [done |]. by rewrite filter_cons_False.
Qed.

(** The items of a created order are the rows made from its group. *)
Lemma order_items_of_new_order be uid addr notes groups s s' j sellerId items :
  items_reference_orders s →
  order_items s' = order_items s ++ new_items groups (next_order_id s) →
  groups !! j = Some (sellerId, items) →
  order_items_of
    (new_order be uid addr notes j sellerId items (next_order_id s + j)) s' =
    orderItems (next_order_id s + j) items.
Proof.
  intros Href Hitems Hj. unfold order_items_of. simpl.
  rewrite Hitems, filter_app, (new_items_of_order _ _ _ sellerId items) by done.
  rewrite filter_none; [done |].
  apply Forall_forall. intros oi Hoi Heq. apply Href in Hoi. lia.
Qed.

(** The order of the [j]-th seller group is the [j]-th order a checkout
    returns, and its rows in [order_items] are the rows made from the
    group. *)
Lemma created_order_at be sess uid addr notes cart w j sellerId items :
  user sess = Some uid →
  accepted be 0 (length (ordersBySeller cart)) →
  items_reference_orders (store w) →
  ordersBySeller cart !! j = Some (sellerId, items) →
  let o := new_order be uid addr notes j sellerId items
             (next_order_id (store w) + j) in
  new_orders be uid addr notes 0 (ordersBySeller cart)
    (next_order_id (store w)) !! j = Some o ∧
  order_items_of o (store (createOrder be sess cart addr notes w).2) =
    orderItems (o_id o) items.
Proof.
  intros Huser Hacc Href Hg o. split.
  - by rewrite new_orders_lookup, Hg.
  - destruct (createOrder_accepted be sess uid addr notes cart w) as [_ ->];
      [done.. |].
    destruct (checked_out_tables be sess uid addr notes cart (store w))
      as (_ & Hitems & _).
    by apply (order_items_of_new_order _ _ _ _ (ordersBySeller cart)).
Qed.

(** An order that a checkout returns is the order of one seller group. *)
Lemma created_order_group be sess uid addr notes cart w o :
  user sess = Some uid →
  accepted be 0 (length (ordersBySeller cart)) →
  items_reference_orders (store w) →
  o ∈ new_orders be uid addr notes 0 (ordersBySeller cart)
        (next_order_id (store w)) →
  ∃ j sellerId items,
    ordersBySeller cart !! j = Some (sellerId, items) ∧
    o = new_order be uid addr notes j sellerId items (next_order_id (store w) + j) ∧
    order_items_of o (store (createOrder be sess cart addr notes w).2) =
      orderItems (o_id o) items.
Proof.
  intros Huser Hacc Href Ho.
  apply list_elem_of_lookup in Ho as [j Hj].
  rewrite new_orders_lookup in Hj.
  destruct (ordersBySeller cart !! j) as [[sellerId items]|] eqn:Hg; [|done].
  injection Hj as <-. exists j, sellerId, items. split_and!; [done.. |].
  by destruct (created_order_at be sess uid addr notes cart w j sellerId items).
Qed.

(** C1.  For every cart whose items span N distinct seller ids, a checkout
    whose inserts the store accepts creates exactly N orders, one for each
    seller; every item of the cart has its row in the order of its seller,
    and every row of [order_items] that belongs to one of these orders was
    made from a cart item whose product has the seller id of that order. *)
Theorem createOrder_one_order_per_seller be sess uid addr notes cart w :
  user sess = Some uid →
  accepted be 0 (distinct_sellers cart) →
  items_reference_orders (store w) →
  ∃ created,
    (createOrder be sess cart addr notes w).1 = Normal created ∧
    orders (store (createOrder be sess cart addr notes w).2) =
      orders (store w) ++ created ∧
    length created = distinct_sellers cart ∧
    NoDup (o_seller_id <$> created) ∧
    (∀ item, item ∈ cart →
       ∃ o oi,
         o ∈ created ∧ o_seller_id o = seller_of item ∧
         oi ∈ order_items_of o (store (createOrder be sess cart addr notes w).2) ∧
         oi_product_id oi = ci_product_id item ∧
         oi_quantity oi = ci_quantity item) ∧
    (∀ o oi,
       o ∈ created →
       oi ∈ order_items_of o (store (createOrder be sess cart addr notes w).2) →
       ∃ item, item ∈ cart ∧ ci_product_id item = oi_product_id oi ∧
               seller_of item = o_seller_id o).
Proof.
  intros Huser Hacc Href. rewrite <- ordersBySeller_length in Hacc.
  destruct (createOrder_accepted be sess uid addr notes cart w) as [Hres Hstore];
    [done.. |].
  exists (new_orders be uid addr notes 0 (ordersBySeller cart)
            (next_order_id (store w))).
  split_and!.
  - done.
  - rewrite Hstore.
    by destruct (checked_out_tables be sess uid addr notes cart (store w))
      as (-> & _).
  - by rewrite new_orders_length, ordersBySeller_length.
  - rewrite new_orders_sellers. apply ordersBySeller_NoDup.
  - intros item Hitem.
    destruct (ordersBySeller_covers cart item Hitem)
      as (sellerId & items & Hg & Hin).
    destruct (ordersBySeller_group cart sellerId items item Hg Hin) as [_ Hs].
    apply list_elem_of_lookup in Hg as [j Hj].
    destruct (created_order_at be sess uid addr notes cart w j sellerId items)
      as [Ho Hrows]; [done.. |].
    eexists _, _. split_and!.
    + by apply list_elem_of_lookup_2 in Ho.
    + done.
    + rewrite Hrows. by apply list_elem_of_fmap_2.
    + done.
    + done.
  - intros o oi Ho Hoi.
    destruct (created_order_group be sess uid addr notes cart w o)
      as (j & sellerId & items & Hg & -> & Hitems); [done.. |].
    rewrite Hitems in Hoi. apply list_elem_of_fmap in Hoi as (item & -> & Hitem).
    apply list_elem_of_lookup_2 in Hg.
    destruct (ordersBySeller_group cart sellerId items item) as [Hcart Hseller];
      [done.. |].
    exists item. done.
Qed.

(** [Σ total_price], added up the way [totalAmount] adds: from 0, in the
    order of the rows. *)
Definition sum_total_price (rows : list OrderItem) : num :=
  foldl (λ sum oi, num_add sum (oi_total_price oi)) num_zero rows.

Lemma sum_total_price_orderItems order_id items :
  sum_total_price (orderItems order_id items) = totalAmount items.
Proof. unfold sum_total_price, orderItems, totalAmount. by rewrite foldl_fmap. Qed.

(** The rows of [new_items] point at the orders of their groups. *)
Lemma new_items_order_ids groups nid oi :
  oi ∈ new_items groups nid → nid ≤ oi_order_id oi < nid + length groups.
Proof.
  revert nid.
  induction groups as [|[sellerId items] rest IH]; intros nid Hoi; simpl in *.
  - by apply elem_of_nil in Hoi.
  - apply elem_of_app in Hoi as [Hoi|Hoi].
    + apply list_elem_of_fmap in Hoi as (item & -> & _). simpl. lia.
    + apply IH in Hoi. lia.
Qed.

(** Either the store accepts both inserts of the first [n] groups, or there
    is a first group one of whose inserts it refuses. *)
Lemma first_refused be n :
  accepted be 0 n ∨
  ∃ m e, m < n ∧ accepted be 0 m ∧
    (orders_insert_error be m = Some e ∨
     (orders_insert_error be m = None ∧
      order_items_insert_error be m = Some e)).
Proof.
  induction n as [|n IH].
  - left. intros j Hj. lia.
  - destruct IH as [Hacc | (m & e & Hm & Hacc & Hfail)].
    + destruct (orders_insert_error be n) as [e|] eqn:Ho.
      { right. exists n, e. split_and!; [lia | done | by left]. }
      destruct (order_items_insert_error be n) as [e|] eqn:Hi.
      { right. exists n, e. split_and!; [lia | done | by right]. }
      left. intros j Hj. destruct (decide (j = n)) as [->|Hne]; [done |].
      apply Hacc. lia.
    + right. exists m, e. split_and!; [lia | done..].
Qed.

(** The orders and the order items a checkout leaves when it stops at the
    group after [pre]. *)
Lemma createOrder_refused_tables
    be sess uid addr notes cart w pre sellerId items post e :
  user sess = Some uid →
  ordersBySeller cart = pre ++ (sellerId, items) :: post →
  accepted be 0 (length pre) →
  orders_insert_error be (length pre) = Some e ∨
  (orders_insert_error be (length pre) = None ∧
   order_items_insert_error be (length pre) = Some e) →
  let run := createOrder be sess cart addr notes w in
  let nid := next_order_id (store w) in
  run.1 = Throw (new_Error (message_or "Failed to create order" e)) ∧
  orders (store run.2) =
    orders (store w) ++ new_orders be uid addr notes 0 pre nid ++
    match orders_insert_error be (length pre) with
    | Some _ => []
    | None => [new_order be uid addr notes (length pre) sellerId items
                 (nid + length pre)]
    end ∧
  order_items (store run.2) = order_items (store w) ++ new_items pre nid.
Proof.
  intros Huser Hgroups Hacc Hfail run nid.
  pose proof (createOrder_refused be sess uid addr notes cart w pre sellerId
                items post e Huser Hgroups Hacc Hfail) as Hrun.
  subst run nid. rewrite Hrun. simpl. split_and!.
  - done.
  - destruct Hfail as [->|[-> _]]; simpl;
      rewrite groups_done_orders, ?groups_done_next_order_id, ?app_nil_r,
        <- ?app_assoc; done.
  - destruct Hfail as [->|[-> _]]; simpl; by rewrite groups_done_order_items.
Qed.

(** C3.  The orders [createOrder] creates are the rows it appends to
    [orders], one for each seller group it reaches, whether it returns or
    throws.  For every one of them, each of its rows in [order_items] has
    [total_price = unit_price * quantity] and its [total_amount] is the
    total of the cart items of its group.  When the insert of its items
    was accepted, the order has rows and its [total_amount] is the sum of
    their [total_price].  When that insert was refused, the order has no
    row at all, it is the last order created, and [createOrder] throws. *)
Theorem createOrder_totals be sess addr notes cart w :
  items_reference_orders (store w) →
  let run := createOrder be sess cart addr notes w in
  ∃ created,
    orders (store run.2) = orders (store w) ++ created ∧
    (∀ returned, run.1 = Normal returned → returned = created) ∧
    ∀ k o, created !! k = Some o →
      let rows := order_items_of o (store run.2) in
      (∀ oi, oi ∈ rows →
         oi_total_price oi = num_mul (oi_unit_price oi) (oi_quantity oi)) ∧
      (∃ sellerId items,
         ordersBySeller cart !! k = Some (sellerId, items) ∧
         o_seller_id o = sellerId ∧
         o_total_amount o = totalAmount items) ∧
      match order_items_insert_error be k with
      | None => o_total_amount o = sum_total_price rows ∧ rows ≠ []
      | Some e =>
          rows = [] ∧ S k = length created ∧
          run.1 = Throw (new_Error (message_or "Failed to create order" e))
      end.
Proof.
  intros Href run.
  destruct (user sess) as [uid|] eqn:Huser; cycle 1.
  { exists []. subst run. unfold createOrder. rewrite Huser. simpl.
    split_and!; [by rewrite app_nil_r | done |].
    intros k o Hk. by rewrite lookup_nil in Hk. }
  assert (∀ groups j sellerId items,
    groups !! j = Some (sellerId, items) →
    ordersBySeller cart !! j = Some (sellerId, items) →
    order_items (store run.2) =
      order_items (store w) ++ new_items groups (next_order_id (store w)) →
    order_items_insert_error be j = None →
    let o := new_order be uid addr notes j sellerId items
               (next_order_id (store w) + j) in
    let rows := order_items_of o (store run.2) in
    (∀ oi, oi ∈ rows →
       oi_total_price oi = num_mul (oi_unit_price oi) (oi_quantity oi)) ∧
    (∃ sellerId' items',
       ordersBySeller cart !! j = Some (sellerId', items') ∧
       o_seller_id o = sellerId' ∧ o_total_amount o = totalAmount items') ∧
    o_total_amount o = sum_total_price rows ∧ rows ≠ []) as Hdone.
  { intros groups j sellerId items Hj Hg Hitems Hi o rows.
    assert (rows = orderItems (next_order_id (store w) + j) items) as ->.
    { subst rows o.
      by apply (order_items_of_new_order be uid addr notes groups (store w)). }
    split_and!.
    - intros oi Hoi. by apply list_elem_of_fmap in Hoi as (item & -> & _).
    - by exists sellerId, items.
    - subst o. simpl. by rewrite sum_total_price_orderItems.
    - apply list_elem_of_lookup_2, ordersBySeller_nonempty in Hg.
      by destruct items. }
  destruct (first_refused be (length (ordersBySeller cart)))
    as [Hacc | (m & e & Hm & Hacc & Hfail)].
  - destruct (createOrder_accepted be sess uid addr notes cart w)
      as [Hres Hstore]; [done.. |].
    destruct (checked_out_tables be sess uid addr notes cart (store w))
      as (Horders & Hitems & _).
    exists (new_orders be uid addr notes 0 (ordersBySeller cart)
              (next_order_id (store w))).
    split_and!.
    + subst run. by rewrite Hstore.
    + intros returned Hret. subst run. rewrite Hres in Hret. by injection Hret.
    + intros k o Hk. rewrite new_orders_lookup in Hk.
      destruct (ordersBySeller cart !! k) as [[sellerId items]|] eqn:Hg; [|done].
      injection Hk as <-.
      destruct (Hacc k) as [_ Hi]; [by apply lookup_lt_Some in Hg |].
      simpl in Hi. rewrite Hi.
      destruct (Hdone (ordersBySeller cart) k sellerId items)
        as (Hrows & _ & Htotal & Hne); [done | done | | done |].
      { subst run. by rewrite Hstore. }
      split_and!; [done | by exists sellerId, items | done | done].
  - destruct (lookup_lt_is_Some_2 (ordersBySeller cart) m Hm)
      as [[sellerId items] Hg].
    pose proof (take_drop_middle _ _ _ Hg) as Hsplit.
    assert (length (take m (ordersBySeller cart)) = m) as Hlen
      by (rewrite length_take; lia).
    destruct (createOrder_refused_tables be sess uid addr notes cart w
                (take m (ordersBySeller cart)) sellerId items
                (drop (S m) (ordersBySeller cart)) e)
      as (Hres & Horders & Hitems); [done | done | by rewrite Hlen..|].
    rewrite Hlen in Horders.
    eexists. split_and!; [exact Horders | |].
    + intros returned Hret. fold run in Hres. by rewrite Hres in Hret.
    + intros k o Hk.
      destruct (decide (k < m)) as [Hlt | Hge].
      * rewrite lookup_app_l in Hk by (rewrite new_orders_length; lia).
        rewrite new_orders_lookup, lookup_take_lt in Hk by done.
        destruct (ordersBySeller cart !! k) as [[sellerId' items']|] eqn:Hg';
          [|done].
        injection Hk as <-.
        destruct (Hacc k Hlt) as [_ Hi]. simpl in Hi. rewrite Hi.
        destruct (Hdone (take m (ordersBySeller cart)) k sellerId' items')
          as (Hrows & _ & Htotal & Hne); [| done | done | done |].
        { by rewrite lookup_take_lt. }
        split_and!; [done | by exists sellerId', items' | done | done].
      * rewrite lookup_app_r in Hk by (rewrite new_orders_length, Hlen; lia).
        rewrite new_orders_length, Hlen in Hk.
        destruct Hfail as [Ho | [Ho Hi]]; rewrite Ho in Hk;
          [by rewrite lookup_nil in Hk |].
        apply list_lookup_singleton_Some in Hk as [Hk <-].
        assert (k = m) as -> by lia.
        rewrite Hi. split_and!.
        -- intros oi Hoi. apply list_elem_of_filter in Hoi as [Hid Hoi].
           simpl in Hid. fold run in Hitems. rewrite Hitems in Hoi.
           apply elem_of_app in Hoi as [Hoi|Hoi].
           ++ apply Href in Hoi. lia.
           ++ apply new_items_order_ids in Hoi. lia.
        -- by exists sellerId, items.
        -- apply filter_none, Forall_forall. intros oi Hoi Hid. simpl in Hid.
           fold run in Hitems. rewrite Hitems in Hoi.
           apply elem_of_app in Hoi as [Hoi|Hoi].
           ++ apply Href in Hoi. lia.
           ++ apply new_items_order_ids in Hoi. lia.
        -- rewrite Ho, length_app, new_orders_length, Hlen. simpl. lia.
        -- done.
Qed.

(** C8.  For every seller group for which the order-number procedure
    returns no value, the order is created under the number
    ["ORD-" ++ Date.now()], and the checkout goes on to its end. *)
Theorem createOrder_fallback_order_number be sess uid addr notes cart w k :
  user sess = Some uid →
  accepted be 0 (distinct_sellers cart) →
  k < distinct_sellers cart →
  data (rpc_generate_order_number be k) = None →
  ∃ created o,
    (createOrder be sess cart addr notes w).1 = Normal created ∧
    length created = distinct_sellers cart ∧
    created !! k = Some o ∧
    o ∈ orders (store (createOrder be sess cart addr notes w).2) ∧
    o_order_number o = "ORD-" +:+ pretty (Date_now be k).
Proof.
  intros Huser Hacc Hk Hrpc. rewrite <- ordersBySeller_length in Hacc, Hk.
  destruct (createOrder_accepted be sess uid addr notes cart w) as [Hres Hstore];
    [done.. |].
  destruct (lookup_lt_is_Some_2 (ordersBySeller cart) k Hk) as [[sellerId items] Hg].
  eexists _, _. split_and!.
  - done.
  - by rewrite new_orders_length, ordersBySeller_length.
  - rewrite new_orders_lookup, Hg. done.
  - rewrite Hstore.
    destruct (checked_out_tables be sess uid addr notes cart (store w))
      as (-> & _).
    apply elem_of_app. right. apply list_elem_of_lookup. exists k.
    by rewrite new_orders_lookup, Hg.
  - simpl. unfold order_number. by rewrite Hrpc.
Qed.

(** *** What holds of [createOrder] whatever the store answers *)

(** A request that writes a stock writes the value computed from an item
    of the cart. *)
Definition stock_writes_from cart (r : Request) : Prop :=
  match r with
  | ProductsUpdateStock _ _ => ∃ item, item ∈ cart ∧ r = stock_write item
  | _ => True
  end.

Lemma ordersBySeller_Forall cart :
  Forall (λ g, Forall (λ item, item ∈ cart) g.2) (ordersBySeller cart).
Proof.
  apply Forall_forall. intros [sellerId items] Hg. apply Forall_forall.
  intros item Hitem. by destruct (ordersBySeller_group cart sellerId items item).
Qed.

Lemma createOrder_invariant (I : Store → Prop) be sess addr notes cart w :
  (∀ r s, stock_writes_from cart r → I s → I (record r s)) →
  (∀ o s, I s → I (add_order o s)) →
  (∀ rows s, I s → I (add_order_items rows s)) →
  (∀ item s, item ∈ cart → I s →
     I (set_stock (ci_product_id item)
          (Z.max 0 (p_stock_quantity (ci_product item) - ci_quantity item)) s)) →
  (∀ f s, I s → I (set_cart_items f s)) →
  I (store w) → I (store (createOrder be sess cart addr notes w).2).
Proof.
  intros Hrec Hord Hitems Hstock Hcart Hw.
  destruct (user sess) as [uid|] eqn:Huser;
    [| unfold createOrder; by rewrite Huser].
  rewrite (createOrder_run _ _ uid) by done.
  pose proof (create_orders_invariant be uid addr notes I (λ item, item ∈ cart))
    as Hloop.
  specialize (Hloop ltac:(intros [] ? Hr; try done; by apply Hrec)
                Hord Hitems Hstock (ordersBySeller cart) 0 [] w
                (ordersBySeller_Forall cart) Hw).
  destruct (create_orders be uid addr notes 0 (ordersBySeller cart) [] w)
    as [[created|e] w1]; [|done].
  simpl in *. destruct (fetchOrders_run be sess (set_store (cart_cleared be uid) w1))
    as [st ->]. simpl.
  assert (I (cart_cleared be uid (store w1))) as Hcleared.
  { unfold cart_cleared. destruct (cart_items_delete_error be).
    - by apply Hrec.
    - by apply Hcart, Hrec. }
  pose proof (fetch_requests_reads be sess) as Hreads.
  revert Hcleared Hreads. generalize (cart_cleared be uid (store w1)).
  induction (fetch_requests be sess) as [|r l IH]; intros s Hs Hl; [done |].
  apply Forall_cons in Hl as [Hr Hl]. apply IH; [|done].
  apply Hrec; [|done]. by destruct r.
Qed.

(** [createOrder] only appends to the requests of the store, and the stock
    it writes is computed from the items of the cart. *)
Lemma createOrder_issued be sess addr notes cart w :
  Forall (stock_writes_from cart)
    (issued w (createOrder be sess cart addr notes w).2).
Proof.
  assert (∃ l, requests (store (createOrder be sess cart addr notes w).2) =
                 requests (store w) ++ l ∧ Forall (stock_writes_from cart) l)
    as (l & Hl & HF).
  { apply (createOrder_invariant
             (λ s, ∃ l, requests s = requests (store w) ++ l ∧
                        Forall (stock_writes_from cart) l)); try done.
    - intros r s Hr (l & Hl & HF). exists (l ++ [r]). simpl.
      rewrite Hl, app_assoc. split; [done |].
      apply Forall_app. split; [done | by constructor].
    - exists []. by rewrite app_nil_r. }
  by rewrite (issued_app _ _ l).
Qed.

(** A checkout that fails made requests of the loop only and left the cart
    table alone. *)
Lemma createOrder_Throw be sess addr notes cart w e :
  (createOrder be sess cart addr notes w).1 = Throw e →
  cart_items (store (createOrder be sess cart addr notes w).2)
    = cart_items (store w) ∧
  Forall (loop_request (λ _, True))
    (issued w (createOrder be sess cart addr notes w).2).
Proof.
  destruct (user sess) as [uid|] eqn:Huser.
  - rewrite (createOrder_run _ _ uid) by done.
    pose proof (create_orders_cart_items be uid addr notes
                  (ordersBySeller cart) 0 [] w) as Hcart.
    destruct (create_orders_requests be uid addr notes (ordersBySeller cart) 0 []
                w (λ _, True)) as (l & Hl & HF).
    { apply Forall_forall. intros g _. by apply Forall_forall. }
    destruct (create_orders be uid addr notes 0 (ordersBySeller cart) [] w)
      as [[created|e'] w1]; [done |].
    intros _. simpl in *. by rewrite (issued_app _ _ l).
  - unfold createOrder. rewrite Huser. intros _. simpl. split; [done |].
    rewrite (issued_app _ _ []); [done | by rewrite app_nil_r].
Qed.

(** C2.  When the insert of the order row or of the order-item rows of a
    seller group is refused after the groups before it were committed,
    [createOrder] throws; the cart table is as it was and no cart delete was
    requested; the orders, the order items and the stock of the committed
    groups stay as the loop left them. *)
Theorem createOrder_partial_failure
    be sess uid addr notes cart w pre sellerId items post e :
  user sess = Some uid →
  ordersBySeller cart = pre ++ (sellerId, items) :: post →
  pre ≠ [] →
  accepted be 0 (length pre) →
  orders_insert_error be (length pre) = Some e ∨
  (orders_insert_error be (length pre) = None ∧
   order_items_insert_error be (length pre) = Some e) →
  let run := createOrder be sess cart addr notes w in
  let nid := next_order_id (store w) in
  run.1 = Throw (new_Error (message_or "Failed to create order" e)) ∧
  cart_items (store run.2) = cart_items (store w) ∧
  (∀ buyer_id, CartItemsDeleteBuyer buyer_id ∉ issued w run.2) ∧
  orders (store run.2) =
    orders (store w) ++ new_orders be uid addr notes 0 pre nid ++
    match orders_insert_error be (length pre) with
    | Some _ => []
    | None => [new_order be uid addr notes (length pre) sellerId items
                 (nid + length pre)]
    end ∧
  length (new_orders be uid addr notes 0 pre nid) = length pre ∧
  order_items (store run.2) = order_items (store w) ++ new_items pre nid ∧
  products (store run.2) =
    products (groups_done be uid addr notes 0 pre (store w)).
Proof.
  intros Huser Hgroups _ Hacc Hfail run nid.
  pose proof (createOrder_refused be sess uid addr notes cart w pre sellerId
                items post e Huser Hgroups Hacc Hfail) as Hrun.
  assert (run.1 = Throw (new_Error (message_or "Failed to create order" e)))
    as Hthrow by (subst run; by rewrite Hrun).
  destruct (createOrder_Throw be sess addr notes cart w _ Hthrow) as [Hcart Hreq].
  split_and!; try done.
  - intros buyer_id Hin. rewrite Forall_forall in Hreq. by apply Hreq in Hin.
  - subst run nid. rewrite Hrun. simpl.
    destruct Hfail as [->|[-> _]]; simpl;
      rewrite groups_done_orders, ?groups_done_next_order_id, ?app_nil_r,
        <- ?app_assoc; done.
  - apply new_orders_length.
  - subst run nid. rewrite Hrun. simpl.
    destruct Hfail as [->|[-> _]]; simpl; by rewrite groups_done_order_items.
  - subst run. rewrite Hrun. simpl. by destruct Hfail as [->|[-> _]].
Qed.

(** *** The stock in the table *)

(** [Math.max(0, item.product.stock_quantity - item.quantity)] *)
Definition written_stock (item : CartItem) : Z :=
  Z.max 0 (p_stock_quantity (ci_product item) - ci_quantity item).

(** The [products] table after the accepted stock update of one item. *)
Definition restock (ps : list Product) (item : CartItem) : list Product :=
  (λ p, if decide (p_id p = ci_product_id item)
        then with_stock (written_stock item) p else p) <$> ps.

Lemma stock_written_products be k i items s :
  (∀ k i, products_update_error be k i = None) →
  products (stock_written be k i items s) = foldl restock (products s) items.
Proof.
  intros Hok. revert i s.
  induction items as [|item rest IH]; intros i s; simpl; [done |].
  by rewrite IH, Hok.
Qed.

Lemma groups_done_products be uid addr notes k groups s :
  (∀ k i, products_update_error be k i = None) →
  products (groups_done be uid addr notes k groups s) =
    foldl restock (products s) (mjoin groups.*2).
Proof.
  intros Hok. revert k s.
  induction groups as [|[sellerId items] rest IH]; intros k s; simpl; [done |].
  rewrite IH, foldl_app. unfold group_done.
  by rewrite stock_written_products.
Qed.

(** After the updates of [items], a product that an item names holds the
    stock written for that item, as long as two items that name the same
    product write the same stock. *)
Lemma restock_all items ps p item :
  (∀ item1 item2, item1 ∈ items → item2 ∈ items →
     ci_product_id item1 = ci_product_id item2 →
     written_stock item1 = written_stock item2) →
  p ∈ foldl restock ps items → item ∈ items →
  p_id p = ci_product_id item →
  p_stock_quantity p = written_stock item.
Proof.
  revert p item. induction items as [|last items IH] using rev_ind;
    intros p item Hsame Hp Hitem Hid.
  - by apply elem_of_nil in Hitem.
  - rewrite foldl_app in Hp. simpl in Hp. unfold restock at 1 in Hp.
    apply list_elem_of_fmap in Hp as (p0 & -> & Hp0).
    destruct (decide (p_id p0 = ci_product_id last)) as [Hlast|Hlast].
    + simpl in *. apply Hsame; [apply elem_of_app; right; left | done | congruence].
    + apply elem_of_app in Hitem as [Hitem|Hitem].
      * apply IH; [|done..].
        intros item1 item2 H1 H2. apply Hsame; apply elem_of_app; by left.
      * apply list_elem_of_singleton in Hitem as ->. done.
Qed.

Lemma NoDup_fmap_eq {A B} (f : A → B) (l : list A) x y :
  NoDup (f <$> l) → x ∈ l → y ∈ l → f x = f y → x = y.
Proof.
  induction l as [|a l IH]; intros Hnd Hx Hy Hf.
  - by apply elem_of_nil in Hx.
  - rewrite fmap_cons in Hnd. apply NoDup_cons in Hnd as [Ha Hnd].
    apply elem_of_cons in Hx as [->|Hx]; apply elem_of_cons in Hy as [->|Hy].
    + done.
    + exfalso. apply Ha. rewrite Hf. by apply list_elem_of_fmap_2.
    + exfalso. apply Ha. rewrite <- Hf. by apply list_elem_of_fmap_2.
    + by apply IH.
Qed.

(** When the store accepts every write of a checkout over a cart that names
    each product once, the product of every item ends with the stock
    computed from that item. *)
Lemma createOrder_products be sess uid addr notes cart w item p :
  user sess = Some uid →
  accepted be 0 (length (ordersBySeller cart)) →
  (∀ k i, products_update_error be k i = None) →
  NoDup (ci_product_id <$> cart) →
  item ∈ cart →
  p ∈ products (store (createOrder be sess cart addr notes w).2) →
  p_id p = ci_product_id item →
  p_stock_quantity p = written_stock item.
Proof.
  intros Huser Hacc Hok Hnd Hitem Hp Hid.
  destruct (createOrder_accepted be sess uid addr notes cart w) as [_ Hstore];
    [done.. |].
  rewrite Hstore in Hp. unfold checked_out in Hp.
  destruct (records_tables (fetch_requests be sess)
              (cart_cleared be uid
                 (groups_done be uid addr notes 0 (ordersBySeller cart) (store w))))
    as (_ & _ & Hproducts & _).
  rewrite Hproducts in Hp.
  assert (products (cart_cleared be uid
            (groups_done be uid addr notes 0 (ordersBySeller cart) (store w))) =
          foldl restock (products (store w)) (mjoin (ordersBySeller cart).*2))
    as Hrestock.
  { rewrite <- (groups_done_products be uid addr notes 0) by done.
    unfold cart_cleared. by destruct (cart_items_delete_error be). }
  rewrite Hrestock in Hp.
  assert (∀ x, x ∈ mjoin (ordersBySeller cart).*2 ↔ x ∈ cart) as Hitems.
  { intros x. unfold ordersBySeller.
    rewrite <- (foldl_push_items cart [] x). simpl. rewrite elem_of_nil. tauto. }
  apply (restock_all (mjoin (ordersBySeller cart).*2) (products (store w)));
    [| done | by apply Hitems | done].
  intros item1 item2 H1 H2 Heq. apply Hitems in H1, H2.
  by rewrite (NoDup_fmap_eq ci_product_id cart item1 item2).
Qed.

(** C4.  Every stock that [createOrder] writes is
    [max(0, stock_quantity - quantity)] of an item of the cart: it is never
    negative, and it is 0 when the quantity exceeds the stock.  When the
    inserts are accepted every item of the cart gets its write, and when
    the updates are accepted too, over a cart that names each product once,
    that value is the stock the product ends with.  A store whose stocks
    are not negative stays so. *)
Theorem createOrder_stock_floor be sess addr notes cart w :
  let run := createOrder be sess cart addr notes w in
  (∀ id q, ProductsUpdateStock id q ∈ issued w run.2 →
     (0 ≤ q)%Z ∧
     ∃ item, item ∈ cart ∧ id = ci_product_id item ∧
       q = Z.max 0 (p_stock_quantity (ci_product item) - ci_quantity item) ∧
       ((p_stock_quantity (ci_product item) < ci_quantity item)%Z → q = 0%Z)) ∧
  (∀ uid, user sess = Some uid → accepted be 0 (distinct_sellers cart) →
     ∀ item, item ∈ cart →
       ProductsUpdateStock (ci_product_id item)
         (Z.max 0 (p_stock_quantity (ci_product item) - ci_quantity item))
         ∈ issued w run.2) ∧
  (∀ uid, user sess = Some uid → accepted be 0 (distinct_sellers cart) →
     (∀ k i, products_update_error be k i = None) →
     NoDup (ci_product_id <$> cart) →
     ∀ item p, item ∈ cart → p ∈ products (store run.2) →
       p_id p = ci_product_id item →
       p_stock_quantity p =
         Z.max 0 (p_stock_quantity (ci_product item) - ci_quantity item)) ∧
  (Forall (λ p, (0 ≤ p_stock_quantity p)%Z) (products (store w)) →
   Forall (λ p, (0 ≤ p_stock_quantity p)%Z) (products (store run.2))).
Proof.
  intros run. split_and!.
  - intros id q Hin.
    pose proof (createOrder_issued be sess addr notes cart w) as HF.
    rewrite Forall_forall in HF. apply HF in Hin as (item & Hitem & [= -> ->]).
    split; [lia |]. exists item. split_and!; [done.. | lia].
  - intros uid Huser Hacc item Hitem.
    rewrite <- ordersBySeller_length in Hacc.
    destruct (createOrder_accepted be sess uid addr notes cart w) as [_ Hstore];
      [done.. |].
    destruct (checked_out_tables be sess uid addr notes cart (store w))
      as (_ & _ & _ & Hreq).
    destruct (ordersBySeller_covers cart item Hitem) as (sellerId & items & Hg & Hi).
    destruct (groups_done_issued be uid addr notes 0 (ordersBySeller cart)
                (store w)) as (l & Hl & Hin).
    subst run. unfold issued. rewrite Hstore, Hreq, Hl, <- app_assoc.
    rewrite drop_app_length. apply elem_of_app. left.
    by apply (Hin sellerId items).
  - intros uid Huser Hacc Hok Hnd item p Hitem Hp Hid.
    rewrite <- ordersBySeller_length in Hacc.
    by apply (createOrder_products be sess uid addr notes cart w item p).
  - apply (createOrder_invariant
             (λ s, Forall (λ p, (0 ≤ p_stock_quantity p)%Z) (products s)));
      try done.
    intros item s _ Hs. simpl. apply Forall_fmap.
    eapply Forall_impl; [done |]. intros p Hp. simpl in *.
    case_decide; simpl; lia.
Qed.

(** *** The empty cart *)

Lemma createOrder_nil be sess uid addr notes w :
  user sess = Some uid →
  let run := createOrder be sess [] addr notes w in
  run.1 = Normal [] ∧
  orders (store run.2) = orders (store w) ∧
  order_items (store run.2) = order_items (store w) ∧
  products (store run.2) = products (store w) ∧
  issued w run.2 = CartItemsDeleteBuyer uid :: fetch_requests be sess ∧
  cart_items (store run.2) =
    match cart_items_delete_error be with
    | Some _ => cart_items (store w)
    | None => filter (λ r, cr_buyer_id r ≠ uid) (cart_items (store w))
    end.
Proof.
  intros Huser run.
  destruct (createOrder_accepted be sess uid addr notes [] w) as [Hres Hstore];
    [done | intros j Hj; simpl in Hj; lia |].
  subst run. rewrite Hres, Hstore. unfold checked_out. simpl.
  destruct (records_tables (fetch_requests be sess) (cart_cleared be uid (store w)))
    as (Ho & Hi & Hp & Hc).
  rewrite Ho, Hi, Hp, Hc. split_and!; try done.
  - unfold cart_cleared. by destruct (cart_items_delete_error be).
  - unfold cart_cleared. by destruct (cart_items_delete_error be).
  - unfold cart_cleared. by destruct (cart_items_delete_error be).
  - apply issued_app. rewrite Hstore. unfold checked_out. simpl.
    rewrite records_requests. unfold cart_cleared.
    destruct (cart_items_delete_error be); simpl; by rewrite <- app_assoc.
  - unfold cart_cleared. by destruct (cart_items_delete_error be).
Qed.

(** C10.  Called by an authenticated user with an empty cart, [createOrder]
    creates no order and no order item, still asks the store to delete the
    cart rows of the buyer, and returns the empty list. *)
Theorem createOrder_empty_cart be sess uid addr notes w :
  user sess = Some uid →
  let run := createOrder be sess [] addr notes w in
  run.1 = Normal [] ∧
  orders (store run.2) = orders (store w) ∧
  order_items (store run.2) = order_items (store w) ∧
  CartItemsDeleteBuyer uid ∈ issued w run.2 ∧
  (cart_items_delete_error be = None →
   ∀ r, r ∈ cart_items (store run.2) → cr_buyer_id r ≠ uid).
Proof.
  intros Huser run.
  destruct (createOrder_nil be sess uid addr notes w Huser)
    as (Hres & Ho & Hi & _ & Hreq & Hcart).
  subst run. split_and!; try done.
  - rewrite Hreq. left.
  - intros Hok r. rewrite Hcart, Hok. intros Hr.
    by apply list_elem_of_filter in Hr as [Hr _].
Qed.

Lemma new_orders_shipping_address be uid addr notes groups k nid o :
  o ∈ new_orders be uid addr notes k groups nid → o_shipping_address o = addr.
Proof.
  intros Ho. apply list_elem_of_lookup in Ho as [j Hj].
  rewrite new_orders_lookup in Hj. destruct (groups !! j); [|done].
  by injection Hj as <-.
Qed.

(** C5, as the code has it.  [createOrder] validates neither the cart nor
    the shipping address.  With an empty cart it returns the empty list,
    having written no order, order item or stock and having asked for the
    cart delete and the reads of the reload only.  With an empty shipping
    address and a cart whose inserts the store accepts it creates one order
    per seller, each with the empty string as its shipping address. *)
Theorem createOrder_no_validation be sess uid notes w :
  user sess = Some uid →
  (∀ addr,
     let run := createOrder be sess [] addr notes w in
     run.1 = Normal [] ∧
     orders (store run.2) = orders (store w) ∧
     order_items (store run.2) = order_items (store w) ∧
     products (store run.2) = products (store w) ∧
     issued w run.2 = CartItemsDeleteBuyer uid :: fetch_requests be sess) ∧
  (∀ cart, accepted be 0 (distinct_sellers cart) →
     ∃ created,
       (createOrder be sess cart EmptyString notes w).1 = Normal created ∧
       length created = distinct_sellers cart ∧
       created ⊆ orders (store (createOrder be sess cart EmptyString notes w).2) ∧
       ∀ o, o ∈ created → o_shipping_address o = EmptyString).
Proof.
  intros Huser. split.
  - intros addr run.
    destruct (createOrder_nil be sess uid addr notes w Huser)
      as (Hres & Ho & Hi & Hp & Hreq & _).
    done.
  - intros cart Hacc. rewrite <- ordersBySeller_length in Hacc.
    destruct (createOrder_accepted be sess uid EmptyString notes cart w)
      as [Hres Hstore]; [done.. |].
    eexists. split_and!; [done | | |].
    + by rewrite new_orders_length, ordersBySeller_length.
    + rewrite Hstore.
      destruct (checked_out_tables be sess uid EmptyString notes cart (store w))
        as (-> & _).
      intros o Ho. apply elem_of_app. by right.
    + intros o Ho. by apply new_orders_shipping_address in Ho.
Qed.

(** ** Status updates and receipts *)

Lemma updateOrderStatus_run be sess orderId status w :
  (updateOrderStatus be sess orderId status w).1 =
    match orders_update_error be with
    | Some e => Throw (new_Error (message_or "Failed to update order status" e))
    | None => Normal tt
    end.
Proof.
  unfold updateOrderStatus, try_catch, bind, orders_update_status, write, throw.
  destruct (orders_update_error be); [done |]. simpl.
  by destruct (fetchOrders_run be sess
                 (set_store (λ s, set_status orderId status
                                    (record (OrdersUpdateStatus orderId status) s)) w))
    as [st ->].
Qed.

Lemma uploadPaymentReceipt_run be sess uid orderId receiptUrl w :
  user sess = Some uid →
  (uploadPaymentReceipt be sess orderId receiptUrl w).1 =
    match payment_receipts_insert_error be with
    | Some e => Throw (new_Error (message_or "Failed to upload receipt" e))
    | None => Normal tt
    end.
Proof.
  intros Huser. unfold uploadPaymentReceipt. rewrite Huser.
  unfold try_catch, bind, payment_receipts_insert, write, throw.
  destruct (payment_receipts_insert_error be); [done |]. simpl.
  by destruct (fetchOrders_run be sess
                 (set_store
                    (λ s, add_receipt
                            (mkPaymentReceipt orderId receiptUrl uid "pending")
                            (record (PaymentReceiptsInsert orderId receiptUrl uid) s))
                    w))
    as [st ->].
Qed.

(** A failed reload ends in the [error] state of the hook. *)
Lemma fetchOrders_error be sess uid role w e :
  user sess = Some uid → profile sess = Some role →
  orders_select_error be = Some e →
  st_error (useOrders_state (fetchOrders be sess w).2) =
    Some (message_or "Failed to fetch orders" e).
Proof.
  intros Huser Hprofile Herr.
  unfold fetchOrders, try_finally, try_catch, bind, orders_select, read.
  rewrite Huser, Hprofile, Herr. done.
Qed.

(** C6, as the code has it.  The store errors an operation checks make it
    throw an [Error]: the refused insert of an order or of its items in
    [createOrder], the refused update in [updateOrderStatus], the refused
    insert in [uploadPaymentReceipt].  Its message is the message of the
    store error when that error is an [Error] instance, and the fixed text
    of the operation otherwise.  A failing order-number procedure and a
    failing reload do not make an operation throw: with its writes accepted
    the operation returns, and the failed reload is kept in the [error]
    state of the hook. *)
Theorem checked_store_errors_propagate be sess uid :
  user sess = Some uid →
  (∀ addr notes cart w pre sellerId items post e,
     ordersBySeller cart = pre ++ (sellerId, items) :: post →
     accepted be 0 (length pre) →
     orders_insert_error be (length pre) = Some e ∨
     (orders_insert_error be (length pre) = None ∧
      order_items_insert_error be (length pre) = Some e) →
     (createOrder be sess cart addr notes w).1 =
       Throw (new_Error (if instanceof_Error e then message e
                         else "Failed to create order"))) ∧
  (∀ orderId status w e,
     orders_update_error be = Some e →
     (updateOrderStatus be sess orderId status w).1 =
       Throw (new_Error (if instanceof_Error e then message e
                         else "Failed to update order status"))) ∧
  (∀ orderId receiptUrl w e,
     payment_receipts_insert_error be = Some e →
     (uploadPaymentReceipt be sess orderId receiptUrl w).1 =
       Throw (new_Error (if instanceof_Error e then message e
                         else "Failed to upload receipt"))) ∧
  (∀ addr notes cart w,
     accepted be 0 (distinct_sellers cart) →
     (∀ k i, products_update_error be k i = None) →
     cart_items_delete_error be = None →
     ∃ created, (createOrder be sess cart addr notes w).1 = Normal created) ∧
  (∀ orderId status w,
     orders_update_error be = None →
     (updateOrderStatus be sess orderId status w).1 = Normal tt) ∧
  (∀ orderId receiptUrl w,
     payment_receipts_insert_error be = None →
     (uploadPaymentReceipt be sess orderId receiptUrl w).1 = Normal tt) ∧
  (∀ role w e,
     profile sess = Some role → orders_select_error be = Some e →
     st_error (useOrders_state (fetchOrders be sess w).2) =
       Some (if instanceof_Error e then message e else "Failed to fetch orders")).
Proof.
  intros Huser. split_and!.
  - intros addr notes cart w pre sellerId items post e Hgroups Hacc Hfail.
    by rewrite (createOrder_refused be sess uid addr notes cart w pre sellerId
                  items post e).
  - intros orderId status w e He. by rewrite updateOrderStatus_run, He.
  - intros orderId receiptUrl w e He.
    by rewrite (uploadPaymentReceipt_run be sess uid), He.
  - intros addr notes cart w Hacc _ _. rewrite <- ordersBySeller_length in Hacc.
    destruct (createOrder_accepted be sess uid addr notes cart w) as [Hres _];
      [done.. |].
    eauto.
  - intros orderId status w He. by rewrite updateOrderStatus_run, He.
  - intros orderId receiptUrl w He.
    by rewrite (uploadPaymentReceipt_run be sess uid), He.
  - intros role w e Hprofile He. by apply (fetchOrders_error be sess uid role).
Qed.

(** ** The cart hook *)

(** C9.  For every quantity [q ≤ 0], [updateQuantity(id, q)] is
    [removeFromCart(id)]: the same outcome and the same store and hook
    state.  When the store accepts the delete the call returns and no row
    with that id is left in the cart table, nor, once the reload has read
    the table, in the [cartItems] of the hook. *)
Theorem updateQuantity_nonpositive be sess cartItemId quantity w :
  (quantity ≤ 0)%Z →
  updateQuantity be sess cartItemId quantity w =
    removeFromCart be sess cartItemId w ∧
  (cart_items_delete_error be = None →
   let run := updateQuantity be sess cartItemId quantity w in
   run.1 = Normal tt ∧
   (∀ r, r ∈ cart_items (store run.2) → cr_id r ≠ cartItemId) ∧
   (cart_items_select_error be = None →
    ∀ x, x ∈ st_cartItems (useCart_state run.2) → cr_id x.1 ≠ cartItemId)).
Proof.
  intros Hq.
  assert (updateQuantity be sess cartItemId quantity w =
            removeFromCart be sess cartItemId w) as Heq.
  { unfold updateQuantity. by rewrite decide_True. }
  split; [done |]. intros Hdel run. subst run. rewrite Heq.
  unfold removeFromCart, try_catch, bind, cart_items_delete_id, write,
    fetchCartItems, try_finally, cart_items_select, read, setCartItems,
    setCartLoading, setCartError, modify, throw.
  rewrite Hdel. destruct w as [s st c]. simpl.
  assert (∀ r, r ∈ filter (λ r, cr_id r ≠ cartItemId) (cart_items s) →
               cr_id r ≠ cartItemId) as Hgone.
  { intros r Hr. by apply list_elem_of_filter in Hr as [Hr _]. }
  destruct (user sess) as [uid|]; simpl.
  - destruct (cart_items_select_error be); simpl.
    + split_and!; done.
    + split_and!; [done.. |]. intros _ x Hx.
      apply list_elem_of_fmap in Hx as (r & -> & Hr). simpl.
      apply list_elem_of_filter in Hr as [_ Hr]. by apply Hgone.
  - split_and!; [done.. |]. intros _ x Hx. by apply elem_of_nil in Hx.
Qed.

(** ** The two-seller scenario *)

(** C7, as the code has it.  Cart: product A, quantity 2, of seller S1, and
    product B, quantity 1, of seller S2.  The insert of the order of S2 is
    refused after the group of S1 was committed.  Then [createOrder]
    throws, the only order is the one of S1, and the cart table still holds
    the row of product B and the row of product A. *)
Theorem createOrder_second_seller_refused
    be sess uid addr notes w (pA pB : Product) (rowA rowB : CartRow) e :
  user sess = Some uid →
  p_seller_id pA ≠ p_seller_id pB →
  orders (store w) = [] →
  rowA ∈ cart_items (store w) → cr_product_id rowA = p_id pA →
  rowB ∈ cart_items (store w) → cr_product_id rowB = p_id pB →
  accepted be 0 1 →
  orders_insert_error be 1 = Some e →
  let cart := [mkCartItem (p_id pA) 2 pA; mkCartItem (p_id pB) 1 pB] in
  let run := createOrder be sess cart addr notes w in
  run.1 = Throw (new_Error (message_or "Failed to create order" e)) ∧
  (∃ o, orders (store run.2) = [o] ∧ o_seller_id o = p_seller_id pA ∧
        o_total_amount o = num_add num_zero (num_mul (p_price pA) 2)) ∧
  rowB ∈ cart_items (store run.2) ∧
  rowA ∈ cart_items (store run.2).
Proof.
  intros Huser Hne Horders HA _ HB _ Hacc Hfail cart run.
  assert (ordersBySeller cart =
            [(p_seller_id pA, [mkCartItem (p_id pA) 2 pA])] ++
            (p_seller_id pB, [mkCartItem (p_id pB) 1 pB]) :: []) as Hgroups.
  { unfold ordersBySeller, cart. simpl. by rewrite decide_False. }
  pose proof (createOrder_refused be sess uid addr notes cart w _ _ _ _ e
                Huser Hgroups Hacc (or_introl Hfail)) as Hrun.
  subst run. rewrite Hrun. simpl. rewrite Hfail. simpl.
  unfold group_done. rewrite stock_written_orders, stock_written_cart_items.
  simpl. rewrite Horders. split_and!; [done | | done..].
  eexists. split; [done |]. done.
Qed.

End Marketplace.

(** * Runs on a concrete store

    Amounts in whole naira, as integers. *)

Definition productA : Product := mkProduct "A" "S1" 500%Z 5.
Definition productB : Product := mkProduct "B" "S2" 1000%Z 0.

Definition rowA : CartRow := mkCartRow "c1" "u" "A" 2.
Definition rowB : CartRow := mkCartRow "c2" "u" "B" 1.

(** Product A twice from seller S1, product B once from seller S2. *)
Definition two_seller_cart : list CartItem :=
  [mkCartItem "A" 2 productA; mkCartItem "B" 1 productB].

Definition initial_world : World :=
  mkWorld (mkStore [] [] [productA; productB] [rowA; rowB] [] [] 0 [])
    (mkOrdersState [] [] true None) (mkCartState [] true None).

Definition buyer_session : Session := mkSession (Some "u") (Some buyer) None None.

(** A store that accepts everything; the order-number procedure answers
    with no value. *)
Definition accepting : Backend :=
  mkBackend (λ _, mkReply None None) (λ k, 1700000000000 + N.of_nat k)%N
    (λ _, None) (λ _, None) (λ _ _, None) None None None None None None None.

(** The same store with the order-number procedure failing. *)
Definition procedure_down : Backend :=
  mkBackend (λ _, mkReply None (Some (mkThrown false "function unavailable")))
    (λ k, 1700000000000 + N.of_nat k)%N
    (λ _, None) (λ _, None) (λ _ _, None) None None None None None None None.

Definition refusal : Thrown := mkThrown false "permission denied for table orders".

(** A store that refuses the second insert into [orders]. *)
Definition refusing_second_order : Backend :=
  mkBackend (λ _, mkReply None None) (λ k, 1700000000000 + N.of_nat k)%N
    (λ k, if decide (k = 1) then Some refusal else None)
    (λ _, None) (λ _ _, None) None None None None None None None.

(** A store that refuses the second insert into [order_items]. *)
Definition refusing_second_items : Backend :=
  mkBackend (λ _, mkReply None None) (λ k, 1700000000000 + N.of_nat k)%N
    (λ _, None) (λ k, if decide (k = 1) then Some refusal else None)
    (λ _ _, None) None None None None None None None.

(** A store that refuses every write outside the checkout. *)
Definition refusing_updates : Backend :=
  mkBackend (λ _, mkReply None None) (λ k, 1700000000000 + N.of_nat k)%N
    (λ _, None) (λ _, None) (λ _ _, None) None None None
    (Some refusal) (Some refusal) None None.

Lemma accepting_accepted n : accepted accepting 0 n.
Proof. intros j _. split; reflexivity. Defined.

Lemma initial_world_references : items_reference_orders (store initial_world).
Proof. intros oi Hoi. simpl in Hoi. by apply elem_of_nil in Hoi. Defined.

Example two_seller_cart_groups :
  ordersBySeller two_seller_cart =
    [("S1", [mkCartItem "A" 2 productA]); ("S2", [mkCartItem "B" 1 productB])].
Proof. reflexivity. Qed.

Example two_seller_checkout :
  (createOrder accepting buyer_session two_seller_cart "12 Marina Road" None
     initial_world).1 =
    Normal [mkOrder 0 "ORD-1700000000000" "u" "S1" 1000%Z "pending"
              "12 Marina Road" None;
            mkOrder 1 "ORD-1700000000001" "u" "S2" 1000%Z "pending"
              "12 Marina Road" None].
Proof. vm_compute. reflexivity. Qed.

Lemma createOrder_one_order_per_seller_witness :
  ∃ created,
    (createOrder accepting buyer_session two_seller_cart "12 Marina Road" None
       initial_world).1 = Normal created ∧
    length created = 2.
Proof.
  destruct (createOrder_one_order_per_seller accepting buyer_session "u"
              "12 Marina Road" None two_seller_cart initial_world)
    as (created & Hres & _ & Hlen & _).
  - reflexivity.
  - apply accepting_accepted.
  - apply initial_world_references.
  - exists created. split; [exact Hres | exact Hlen].
Defined.

Lemma createOrder_partial_failure_witness :
  let run := createOrder refusing_second_order buyer_session two_seller_cart
               "12 Marina Road" None initial_world in
  run.1 = Throw (new_Error "Failed to create order") ∧
  cart_items (store run.2) = [rowA; rowB].
Proof.
  destruct (createOrder_partial_failure refusing_second_order buyer_session "u"
              "12 Marina Road" None two_seller_cart initial_world
              [("S1", [mkCartItem "A" 2 productA])] "S2"
              [mkCartItem "B" 1 productB] [] refusal)
    as (Hres & Hcart & _).
  - reflexivity.
  - reflexivity.
  - discriminate.
  - intros [|j] Hj; [split; reflexivity | simpl in Hj; lia].
  - left. reflexivity.
  - split; [exact Hres | exact Hcart].
Defined.

Lemma createOrder_totals_witness :
  let run := createOrder accepting buyer_session two_seller_cart
               "12 Marina Road" None initial_world in
  ∃ created,
    orders (store run.2) = orders (store initial_world) ++ created ∧
    ∀ k o, created !! k = Some o →
      o_total_amount o = sum_total_price (order_items_of o (store run.2)).
Proof.
  destruct (createOrder_totals accepting buyer_session "12 Marina Road" None
              two_seller_cart initial_world initial_world_references)
    as (created & Horders & _ & Hall).
  exists created. split; [exact Horders |].
  intros k o Hk. destruct (Hall k o Hk) as (_ & _ & Htotal).
  exact (proj1 Htotal).
Defined.

Lemma createOrder_stock_floor_witness :
  let run := createOrder accepting buyer_session two_seller_cart
               "12 Marina Road" None initial_world in
  ProductsUpdateStock "B" 0 ∈ issued initial_world run.2 ∧
  ProductsUpdateStock "A" 3 ∈ issued initial_world run.2 ∧
  (∀ p, p ∈ products (store run.2) → p_id p = "B" → p_stock_quantity p = 0%Z) ∧
  Forall (λ p, (0 ≤ p_stock_quantity p)%Z) (products (store run.2)).
Proof.
  destruct (createOrder_stock_floor accepting buyer_session "12 Marina Road"
              None two_seller_cart initial_world) as (_ & Hall & Hrow & Hinv).
  split_and!.
  - apply (Hall "u" eq_refl (accepting_accepted _) (mkCartItem "B" 1 productB)).
    right. left.
  - apply (Hall "u" eq_refl (accepting_accepted _) (mkCartItem "A" 2 productA)).
    left.
  - intros p Hp Hid.
    apply (Hrow "u" eq_refl (accepting_accepted _) (λ _ _, eq_refl)
             ltac:(apply (bool_decide_unpack _); vm_compute; exact I)
             (mkCartItem "B" 1 productB) p); [right; left | exact Hp | exact Hid].
  - apply Hinv. repeat constructor; simpl; lia.
Defined.

Lemma createOrder_no_validation_witness :
  (createOrder accepting buyer_session [] "12 Marina Road" None
     initial_world).1 = Normal [] ∧
  ∃ created,
    (createOrder accepting buyer_session two_seller_cart EmptyString None
       initial_world).1 = Normal created ∧
    length created = 2.
Proof.
  destruct (createOrder_no_validation accepting buyer_session "u" None
              initial_world eq_refl) as [Hnil Haddr].
  split.
  - apply (Hnil "12 Marina Road").
  - destruct (Haddr two_seller_cart (accepting_accepted _))
      as (created & Hres & Hlen & _).
    exists created. split; [exact Hres | exact Hlen].
Defined.

Lemma checked_store_errors_propagate_witness :
  (createOrder refusing_second_order buyer_session two_seller_cart
     "12 Marina Road" None initial_world).1 =
    Throw (new_Error "Failed to create order") ∧
  (updateOrderStatus refusing_updates buyer_session 0 "shipped"
     initial_world).1 = Throw (new_Error "Failed to update order status").
Proof.
  split.
  - destruct (checked_store_errors_propagate refusing_second_order
                buyer_session "u" eq_refl) as (Hcreate & _).
    apply (Hcreate "12 Marina Road" None two_seller_cart initial_world
             [("S1", [mkCartItem "A" 2 productA])] "S2"
             [mkCartItem "B" 1 productB] [] refusal).
    + reflexivity.
    + intros [|j] Hj; [split; reflexivity | simpl in Hj; lia].
    + left. reflexivity.
  - destruct (checked_store_errors_propagate refusing_updates buyer_session "u"
                eq_refl) as (_ & Hupdate & _).
    apply (Hupdate 0 "shipped" initial_world refusal). reflexivity.
Defined.

Lemma createOrder_second_seller_refused_witness :
  let run := createOrder refusing_second_order buyer_session two_seller_cart
               "12 Marina Road" None initial_world in
  rowB ∈ cart_items (store run.2) ∧ rowA ∈ cart_items (store run.2).
Proof.
  destruct (createOrder_second_seller_refused refusing_second_order
              buyer_session "u" "12 Marina Road" None initial_world
              productA productB rowA rowB refusal)
    as (_ & _ & HB & HA).
  - reflexivity.
  - discriminate.
  - reflexivity.
  - left.
  - reflexivity.
  - right. left.
  - reflexivity.
  - intros [|j] Hj; [split; reflexivity | simpl in Hj; lia].
  - reflexivity.
  - split; [exact HB | exact HA].
Defined.

Lemma createOrder_fallback_order_number_witness :
  ∃ created o,
    (createOrder procedure_down buyer_session two_seller_cart "12 Marina Road"
       None initial_world).1 = Normal created ∧
    created !! 1 = Some o ∧
    o_order_number o = "ORD-1700000000001".
Proof.
  destruct (createOrder_fallback_order_number procedure_down buyer_session "u"
              "12 Marina Road" None two_seller_cart initial_world 1)
    as (created & o & Hres & _ & Hk & _ & Hnumber).
  - reflexivity.
  - intros j _. split; reflexivity.
  - vm_compute. lia.
  - reflexivity.
  - exists created, o. split_and!; [exact Hres | exact Hk |].
    rewrite Hnumber. vm_compute. reflexivity.
Defined.

Lemma updateQuantity_nonpositive_witness :
  let run := updateQuantity accepting buyer_session "c1" 0 initial_world in
  run = removeFromCart accepting buyer_session "c1" initial_world ∧
  cart_items (store run.2) = [rowB].
Proof.
  destruct (updateQuantity_nonpositive accepting buyer_session "c1" 0
              initial_world) as [Heq _].
  - lia.
  - split; [exact Heq | reflexivity].
Defined.

Lemma createOrder_empty_cart_witness :
  let run := createOrder accepting buyer_session [] "12 Marina Road" None
               initial_world in
  run.1 = Normal [] ∧ CartItemsDeleteBuyer "u" ∈ issued initial_world run.2.
Proof.
  destruct (createOrder_empty_cart accepting buyer_session "u" "12 Marina Road"
              None initial_world eq_refl) as (Hres & _ & _ & Hreq & _).
  split; [exact Hres | exact Hreq].
Defined.

(** ** Where the code departs from what is claimed of it *)

(** C3 as claimed fails: the store refuses the order items of S2 after it
    took the order row; the order of S2 stays in [orders] with a total of
    1000 and no row in [order_items], whose sum is 0. *)
Lemma order_without_items_counterexample :
  let run := createOrder refusing_second_items buyer_session two_seller_cart
               "12 Marina Road" None initial_world in
  let o := mkOrder 1 "ORD-1700000000001" "u" "S2" 1000%Z "pending"
             "12 Marina Road" None in
  run.1 = Throw (new_Error "Failed to create order") ∧
  orders (store initial_world) = [] ∧
  orders (store run.2) =
    [mkOrder 0 "ORD-1700000000000" "u" "S1" 1000%Z "pending"
       "12 Marina Road" None; o] ∧
  order_items_of o (store run.2) = [] ∧
  sum_total_price (order_items_of o (store run.2)) = 0%Z ∧
  o_total_amount o ≠ sum_total_price (order_items_of o (store run.2)).
Proof. vm_compute. split_and!; [reflexivity.. | discriminate]. Qed.

(** C5 as claimed fails: an empty cart is not rejected, and neither is an
    empty shipping address, which ends up in two written orders. *)
Lemma createOrder_validation_counterexample :
  (createOrder accepting buyer_session [] "12 Marina Road" None
     initial_world).1 = Normal [] ∧
  (∃ created,
     (createOrder accepting buyer_session two_seller_cart EmptyString None
        initial_world).1 = Normal created ∧
     orders (store (createOrder accepting buyer_session two_seller_cart
                      EmptyString None initial_world).2) = created ∧
     o_shipping_address <$> created = [EmptyString; EmptyString]).
Proof.
  split; [vm_compute; reflexivity |].
  eexists. split_and!; vm_compute; reflexivity.
Qed.

(** C6 as claimed fails: the order-number procedure fails for both groups
    and the checkout returns its two orders; and when the store refuses an
    insert with an error that is no [Error] instance, the message of that
    error is not in what the caller gets. *)
Lemma store_failure_swallowed_counterexample :
  error (rpc_generate_order_number procedure_down 0)
    = Some (mkThrown false "function unavailable") ∧
  (∃ o1 o2,
     (createOrder procedure_down buyer_session two_seller_cart "12 Marina Road"
        None initial_world).1 = Normal [o1; o2]) ∧
  orders_insert_error refusing_second_order 1
    = Some (mkThrown false "permission denied for table orders") ∧
  (createOrder refusing_second_order buyer_session two_seller_cart
     "12 Marina Road" None initial_world).1
    = Throw (mkThrown true "Failed to create order").
Proof.
  split_and!; [reflexivity | | reflexivity | vm_compute; reflexivity].
  eexists _, _. vm_compute. reflexivity.
Qed.

(** C7 as claimed fails: after the refused order of S2 the cart row of
    product A is still in the cart table. *)
Lemma cart_row_kept_counterexample :
  let run := createOrder refusing_second_order buyer_session two_seller_cart
               "12 Marina Road" None initial_world in
  run.1 = Throw (new_Error "Failed to create order") ∧
  o_seller_id <$> orders (store run.2) = ["S1"] ∧
  cart_items (store run.2) = [rowA; rowB].
Proof. vm_compute. split_and!; reflexivity. Qed.

(** * More of the hooks

    What follows covers the rest of [useOrders] and [useCart], the callers
    in the components, the checkout-session hook and the order-number
    procedure of the schema. *)

Section Grouping_exact.

Context {num : Type} `{JsNumber num}.

Implicit Types (acc groups : list (string * list (@CartItem num))).
Implicit Types (item : @CartItem num) (cart items : list (@CartItem num)).

Lemma push_item_Permutation sellerId item acc :
  mjoin (push_item sellerId item acc).*2 ≡ₚ mjoin acc.*2 ++ [item].
Proof.
  induction acc as [|[s items] acc IH]; cbn [push_item].
  - done.
  - case_decide; rewrite !fmap_cons; cbn.
    + rewrite <- !app_assoc. apply Permutation_app_head, Permutation_app_comm.
    + rewrite IH. by rewrite app_assoc.
Qed.

Lemma foldl_push_Permutation cart acc :
  mjoin (foldl (λ acc item, push_item (seller_of item) item acc) acc cart).*2
    ≡ₚ mjoin acc.*2 ++ cart.
Proof.
  revert acc. induction cart as [|item cart IH]; intros acc; simpl.
  - by rewrite app_nil_r.
  - rewrite IH, push_item_Permutation, <- app_assoc. done.
Qed.

(** What a push does to the group of a seller, in a list with one group per
    seller. *)
Lemma push_item_elem sellerId item acc s items :
  NoDup acc.*1 →
  (s, items) ∈ push_item sellerId item acc →
  if decide (s = sellerId)
  then ∃ items0, items = items0 ++ [item] ∧
         ((s, items0) ∈ acc ∨ (items0 = [] ∧ s ∉ acc.*1))
  else (s, items) ∈ acc.
Proof.
  induction acc as [|[s' items'] acc IH]; intros Hnd Hin; cbn [push_item] in Hin.
  - apply list_elem_of_singleton in Hin as [= -> ->].
    rewrite decide_True by done. exists []. split; [done |]. right.
    split; [done | apply not_elem_of_nil].
  - rewrite fmap_cons in Hnd. apply NoDup_cons in Hnd as [Hs' Hnd]. simpl in Hs'.
    destruct (decide (s' = sellerId)) as [->|Hne].
    + apply elem_of_cons in Hin as [[= -> ->]|Hin].
      * rewrite decide_True by done. exists items'. split; [done |]. left. left.
      * case_decide as Hs; [|by right].
        subst s. exfalso. apply Hs'. apply list_elem_of_fmap.
        by exists (sellerId, items).
    + apply elem_of_cons in Hin as [[= -> ->]|Hin].
      * rewrite decide_False by done. left.
      * specialize (IH Hnd Hin). case_decide as Hs; [|by right].
        destruct IH as (items0 & -> & [Hin0|[-> Hnin]]).
        -- exists items0. split; [done |]. left. by right.
        -- exists []. split; [done |]. right. split; [done |].
           rewrite fmap_cons, not_elem_of_cons. simpl. split; [congruence | done].
Qed.

Lemma foldl_push_elem cart acc s items :
  NoDup acc.*1 →
  (s, items) ∈ foldl (λ acc item, push_item (seller_of item) item acc) acc cart →
  ∃ items0, items = items0 ++ filter (λ item, seller_of item = s) cart ∧
    ((s, items0) ∈ acc ∨ (items0 = [] ∧ s ∉ acc.*1)).
Proof.
  revert acc. induction cart as [|item cart IH]; intros acc Hnd Hin; simpl in Hin.
  - exists items. rewrite filter_nil, app_nil_r. split; [done |]. by left.
  - apply IH in Hin as (items1 & -> & Hitems1); [|by apply push_item_NoDup].
    destruct Hitems1 as [Hin1|[-> Hnin]].
    + apply push_item_elem in Hin1; [|done].
      destruct (decide (s = seller_of item)) as [->|Hne].
      * destruct Hin1 as (items0 & -> & Hitems0). exists items0.
        rewrite filter_cons_True, <- app_assoc by done. done.
      * exists items1. rewrite filter_cons_False by congruence. split; [done |].
        by left.
    + rewrite push_item_key_elem in Hnin.
      exists []. rewrite filter_cons_False by (intros Heq; apply Hnin; by left).
      split; [done |]. right. split; [done |]. intros Hs. apply Hnin. by right.
Qed.

Lemma ordersBySeller_group_items cart sellerId items :
  (sellerId, items) ∈ ordersBySeller cart →
  items = filter (λ item, seller_of item = sellerId) cart.
Proof.
  intros Hin.
  apply (foldl_push_elem cart []) in Hin as (items0 & -> & Hitems0);
    [|constructor].
  destruct Hitems0 as [Hin|[-> _]]; [by apply elem_of_nil in Hin | done].
Qed.

(** X1.  The grouping loses and repeats nothing: put end to end, the groups
    are the cart in another order; and the group of a seller is the items
    of that seller, in the order the cart has them. *)
Theorem ordersBySeller_exact cart :
  mjoin (ordersBySeller cart).*2 ≡ₚ cart ∧
  ∀ sellerId items,
    (sellerId, items) ∈ ordersBySeller cart →
    items = filter (λ item, seller_of item = sellerId) cart.
Proof.
  split.
  - unfold ordersBySeller. apply (foldl_push_Permutation cart []).
  - intros sellerId items Hin. by apply ordersBySeller_group_items.
Qed.

End Grouping_exact.

Section Orders_more.

Context {num : Type} `{JsNumber num}.

Implicit Types (be : Backend) (sess : Session).
Implicit Types (w : @World num) (s : @Store num) (st : @OrdersState num).
Implicit Types (cart : list (@CartItem num)) (o : @Order num).
Implicit Types (uid addr : string) (notes : option string).

(** ** [createOrder], order by order *)


(** ** The replies [createOrder] does not look at *)

Lemma stock_written_refused be k i (items : list (@CartItem num)) s :
  (∀ k i, is_Some (products_update_error be k i)) →
  products (stock_written be k i items s) = products s.
Proof.
  intros Hno. revert i s.
  induction items as [|item rest IH]; intros i s; simpl; [done |].
  rewrite IH. by destruct (Hno k i) as [e ->].
Qed.

Lemma groups_done_refused be uid addr notes k
    (groups : list (string * list (@CartItem num))) s :
  (∀ k i, is_Some (products_update_error be k i)) →
  products (groups_done be uid addr notes k groups s) = products s.
Proof.
  intros Hno. revert k s.
  induction groups as [|[sellerId items] rest IH]; intros k s; simpl; [done |].
  rewrite IH. unfold group_done. by rewrite stock_written_refused.
Qed.

(** X3.  The replies of the stock updates and of the cart delete are not
    looked at: with the inserts accepted [createOrder] returns one order per
    seller whatever these replies are.  When the cart delete is refused the
    cart table is left as it was, and when the stock updates are refused
    the products are left as they were. *)
Theorem createOrder_unchecked_replies be sess uid addr notes cart w :
  user sess = Some uid →
  accepted be 0 (distinct_sellers cart) →
  let run := createOrder be sess cart addr notes w in
  (∃ created, run.1 = Normal created ∧ length created = distinct_sellers cart) ∧
  (is_Some (cart_items_delete_error be) →
   cart_items (store run.2) = cart_items (store w)) ∧
  ((∀ k i, is_Some (products_update_error be k i)) →
   products (store run.2) = products (store w)).
Proof.
  intros Huser Hacc run. rewrite <- ordersBySeller_length in Hacc.
  destruct (createOrder_accepted be sess uid addr notes cart w) as [Hres Hstore];
    [done.. |].
  subst run. split_and!.
  - eexists. split; [done |].
    by rewrite new_orders_length, ordersBySeller_length.
  - intros [e He]. rewrite Hstore.
    destruct (checked_out_tables be sess uid addr notes cart (store w))
      as (_ & _ & -> & _).
    by rewrite He.
  - intros Hno. rewrite Hstore. unfold checked_out.
    destruct (records_tables (fetch_requests be sess)
                (cart_cleared be uid
                   (groups_done be uid addr notes 0 (ordersBySeller cart) (store w))))
      as (_ & _ & -> & _).
    rewrite <- (groups_done_refused be uid addr notes 0 (ordersBySeller cart)
                  (store w) Hno).
    unfold cart_cleared. by destruct (cart_items_delete_error be).
Qed.

(** ** [fetchOrders] *)

(** The state of the hook after a reload over the store [s]. *)
Definition reloaded be sess s st : OrdersState :=
  match user sess, profile sess with
  | Some uid, Some profile_role =>
      match orders_select_error be with
      | Some e =>
          mkOrdersState (st_orders st) (st_stripeOrders st) false
            (Some (message_or "Failed to fetch orders" e))
      | None =>
          mkOrdersState
            (orders_query uid (default profile_role (options_role sess))
               (options_status sess) s)
            (match stripe_user_orders_select_error be with
             | Some _ => st_stripeOrders st
             | None => stripe_user_orders s
             end)
            false None
      end
  | _, _ => mkOrdersState [] [] false (st_error st)
  end.

Lemma fetchOrders_world be sess w :
  fetchOrders be sess w =
    (Normal tt,
     mkWorld (records (fetch_requests be sess) (store w))
       (reloaded be sess (store w) (useOrders_state w)) (useCart_state w)).
Proof.
  unfold fetchOrders, fetch_requests, records, reloaded, try_finally, try_catch,
    bind, orders_select, stripe_user_orders_select, read, setLoading, setError,
    setOrders, setStripeOrders, modify, throw, ret.
  destruct w as [s st c].
  destruct (user sess), (profile sess); simpl; try done.
  destruct (orders_select_error be); simpl; [done |].
  destruct (stripe_user_orders_select_error be); simpl; done.
Qed.

(** The filter of the orders query, on one order. *)
Definition listed_for sess uid (profile_role : Role) o : Prop :=
  match default profile_role (options_role sess) with
  | buyer => o_buyer_id o = uid
  | seller => o_seller_id o = uid
  end ∧
  match options_status sess with
  | Some status => status = EmptyString ∨ o_status o = status
  | None => True
  end.

Lemma orders_query_elem sess uid profile_role s o :
  o ∈ orders_query uid (default profile_role (options_role sess))
        (options_status sess) s ↔
  o ∈ orders s ∧ listed_for sess uid profile_role o.
Proof.
  unfold orders_query, listed_for. rewrite elem_of_reverse.
  destruct (default profile_role (options_role sess));
    destruct (options_status sess) as [status|]; try case_decide;
    rewrite ?list_elem_of_filter; tauto.
Qed.

(** X4.  [fetchOrders] never throws, never leaves the hook loading, and
    only reads: the tables are as they were.  Without a user or without a
    profile it asks the store nothing and empties both lists. *)
Theorem fetchOrders_outcome be sess w :
  let run := fetchOrders be sess w in
  run.1 = Normal tt ∧
  st_loading (useOrders_state run.2) = false ∧
  Forall (λ r, is_write r = false) (issued w run.2) ∧
  (orders (store run.2) = orders (store w) ∧
   order_items (store run.2) = order_items (store w) ∧
   products (store run.2) = products (store w) ∧
   cart_items (store run.2) = cart_items (store w)) ∧
  useCart_state run.2 = useCart_state w ∧
  (user sess = None ∨ profile sess = None →
   issued w run.2 = [] ∧
   st_orders (useOrders_state run.2) = [] ∧
   st_stripeOrders (useOrders_state run.2) = []).
Proof.
  intros run. subst run. rewrite fetchOrders_world. simpl.
  assert (issued w
            (mkWorld (records (fetch_requests be sess) (store w))
               (reloaded be sess (store w) (useOrders_state w)) (useCart_state w))
          = fetch_requests be sess) as Hissued.
  { apply issued_app. simpl. apply records_requests. }
  destruct (records_tables (fetch_requests be sess) (store w))
    as (Ho & Hi & Hp & Hc).
  rewrite Hissued, Ho, Hi, Hp, Hc.
  split; [done |]. split.
  { unfold reloaded. destruct (user sess), (profile sess); try done.
    by destruct (orders_select_error be). }
  split; [apply fetch_requests_reads |]. split; [done |]. split; [done |].
  unfold fetch_requests, reloaded.
  intros [Hnone|Hnone]; rewrite Hnone; [done |]. by destruct (user sess).
Qed.

(** X5.  A reload that reads the orders lists exactly the orders of the
    table that pass the filter of the hook: those of the user as buyer or
    as seller, according to the role, with the status asked for if one is.
    A failing read of the Stripe orders changes nothing of this and shows
    no error.  A failing read of the orders keeps the list that was shown
    and puts the message in the error state. *)
Theorem fetchOrders_listed be sess uid profile_role w :
  user sess = Some uid →
  profile sess = Some profile_role →
  let after := useOrders_state (fetchOrders be sess w).2 in
  (orders_select_error be = None →
   st_error after = None ∧
   (∀ o, o ∈ st_orders after ↔
         o ∈ orders (store w) ∧ listed_for sess uid profile_role o) ∧
   (is_Some (stripe_user_orders_select_error be) →
    st_stripeOrders after = st_stripeOrders (useOrders_state w))) ∧
  (∀ e, orders_select_error be = Some e →
   st_orders after = st_orders (useOrders_state w) ∧
   st_error after = Some (if instanceof_Error e then message e
                          else "Failed to fetch orders")).
Proof.
  intros Huser Hprofile after. subst after. rewrite fetchOrders_world. simpl.
  unfold reloaded. rewrite Huser, Hprofile. split.
  - intros ->. simpl. split_and!; [done | |].
    + intros o. apply orders_query_elem.
    + by intros [e ->].
  - by intros e ->.
Qed.

(** X6.  After a checkout that went through, a buyer whose hook filters on
    no status, or on pending, finds every order of the checkout in the
    reloaded list, provided the reload could read the orders. *)
Theorem createOrder_then_listed be sess uid profile_role addr notes cart w :
  user sess = Some uid →
  profile sess = Some profile_role →
  default profile_role (options_role sess) = buyer →
  match options_status sess with
  | Some status => status = EmptyString ∨ status = "pending"
  | None => True
  end →
  orders_select_error be = None →
  accepted be 0 (distinct_sellers cart) →
  let run := createOrder be sess cart addr notes w in
  ∃ created,
    run.1 = Normal created ∧
    length created = distinct_sellers cart ∧
    st_loading (useOrders_state run.2) = false ∧
    st_error (useOrders_state run.2) = None ∧
    ∀ o, o ∈ created → o ∈ st_orders (useOrders_state run.2).
Proof.
  intros Huser Hprofile Hrole Hstatus Hselect Hacc run.
  rewrite <- ordersBySeller_length in Hacc.
  subst run. rewrite (createOrder_run be sess uid) by done.
  rewrite create_orders_run by done. simpl.
  rewrite fetchOrders_world. simpl. unfold reloaded.
  rewrite Huser, Hprofile, Hselect. simpl.
  eexists. split_and!; [done | | done | done |].
  { by rewrite new_orders_length, ordersBySeller_length. }
  intros o Ho. apply orders_query_elem. split.
  - unfold cart_cleared.
    destruct (cart_items_delete_error be); simpl;
      rewrite groups_done_orders; apply elem_of_app; by right.
  - apply list_elem_of_lookup in Ho as [j Hj].
    rewrite new_orders_lookup in Hj.
    destruct (ordersBySeller cart !! j) as [[sellerId items]|]; [|done].
    injection Hj as <-. unfold listed_for. rewrite Hrole. simpl.
    split; [done |]. destruct (options_status sess); [|done].
    destruct Hstatus as [->| ->]; auto.
Qed.

(** ** [updateOrderStatus] *)

Lemma updateOrderStatus_world be sess orderId status w :
  updateOrderStatus be sess orderId status w =
    match orders_update_error be with
    | Some e =>
        (Throw (new_Error (message_or "Failed to update order status" e)),
         set_store (record (OrdersUpdateStatus orderId status)) w)
    | None =>
        fetchOrders be sess
          (set_store (λ s, set_status orderId status
                             (record (OrdersUpdateStatus orderId status) s)) w)
    end.
Proof.
  unfold updateOrderStatus, try_catch, bind, orders_update_status, write, throw.
  destruct (orders_update_error be); [done |]. simpl.
  by rewrite fetchOrders_world.
Qed.

Lemma set_status_elem orderId status (l : list (@Order num)) o' :
  o' ∈ (λ o, if decide (o_id o = orderId) then with_status status o else o) <$> l ↔
  ∃ o, o ∈ l ∧
       o' = if decide (o_id o = orderId) then with_status status o else o.
Proof.
  rewrite list_elem_of_fmap.
  split; intros (o & Ho1 & Ho2); exists o; done.
Qed.

(** X7.  An accepted [updateOrderStatus] writes the status it is given on
    the order with that id, whatever status the order had: no transition
    is ruled out.  The other orders, and every other column, stay as they
    were.  Asking twice for the same status changes nothing more, and of
    two updates in a row the second one wins. *)
Theorem updateOrderStatus_accepted be sess orderId status w :
  orders_update_error be = None →
  let run := updateOrderStatus be sess orderId status w in
  run.1 = Normal tt ∧
  (∀ o, o ∈ orders (store w) → o_id o = orderId →
        with_status status o ∈ orders (store run.2)) ∧
  (∀ o, o ∈ orders (store w) → o_id o ≠ orderId → o ∈ orders (store run.2)) ∧
  (∀ o', o' ∈ orders (store run.2) → o_id o' = orderId → o_status o' = status) ∧
  o_id <$> orders (store run.2) = o_id <$> orders (store w) ∧
  o_total_amount <$> orders (store run.2) = o_total_amount <$> orders (store w) ∧
  order_items (store run.2) = order_items (store w) ∧
  orders (store (updateOrderStatus be sess orderId status run.2).2) =
    orders (store run.2) ∧
  (∀ status',
     orders (store (updateOrderStatus be sess orderId status' run.2).2) =
     orders (store (updateOrderStatus be sess orderId status' w).2)).
Proof.
  intros Hok run. subst run. rewrite !updateOrderStatus_world, Hok.
  rewrite !fetchOrders_world. simpl.
  destruct (records_tables (fetch_requests be sess)
              (set_status orderId status
                 (record (OrdersUpdateStatus orderId status) (store w))))
    as (Ho & Hi & _).
  rewrite Ho, Hi. simpl.
  assert (∀ (st1 st2 : string) (s1 : @Store num),
    orders (records (fetch_requests be sess)
              (set_status orderId st2
                 (record (OrdersUpdateStatus orderId st2)
                    (records (fetch_requests be sess)
                       (set_status orderId st1
                          (record (OrdersUpdateStatus orderId st1) s1)))))) =
    (λ o, if decide (o_id o = orderId) then with_status st2 o else o)
      <$> orders s1) as Htwice.
  { intros st1 st2 s1.
    destruct (records_tables (fetch_requests be sess)
                (set_status orderId st2
                   (record (OrdersUpdateStatus orderId st2)
                      (records (fetch_requests be sess)
                         (set_status orderId st1
                            (record (OrdersUpdateStatus orderId st1) s1))))))
      as (-> & _).
    simpl.
    destruct (records_tables (fetch_requests be sess)
                (set_status orderId st1
                   (record (OrdersUpdateStatus orderId st1) s1)))
      as (-> & _).
    simpl. rewrite <- list_fmap_compose. apply list_fmap_ext.
    intros i o _. simpl. by repeat (case_decide; simpl in *; try done). }
  split_and!.
  - done.
  - intros o Ho' Hid. apply set_status_elem. exists o.
    by rewrite decide_True.
  - intros o Ho' Hid. apply set_status_elem. exists o.
    by rewrite decide_False.
  - intros o' Ho' Hid. apply set_status_elem in Ho' as (o & _ & ->).
    case_decide; [done |]. done.
  - rewrite <- list_fmap_compose. apply list_fmap_ext. intros i o _. simpl.
    by case_decide.
  - rewrite <- list_fmap_compose. apply list_fmap_ext. intros i o _. simpl.
    by case_decide.
  - done.
  - apply Htwice.
  - intros status'. rewrite !updateOrderStatus_world, Hok, !fetchOrders_world.
    simpl. rewrite Htwice.
    by destruct (records_tables (fetch_requests be sess)
              (set_status orderId status'
                 (record (OrdersUpdateStatus orderId status') (store w))))
      as (-> & _).
Qed.

(** X8.  A refused [updateOrderStatus] throws, with the message of the
    store error if that is an [Error] and the text of the operation if
    not; no order changes, the list is not reloaded and the state of the
    hook is as it was. *)
Theorem updateOrderStatus_refused be sess orderId status w e :
  orders_update_error be = Some e →
  let run := updateOrderStatus be sess orderId status w in
  run.1 = Throw (new_Error (if instanceof_Error e then message e
                            else "Failed to update order status")) ∧
  orders (store run.2) = orders (store w) ∧
  issued w run.2 = [OrdersUpdateStatus orderId status] ∧
  useOrders_state run.2 = useOrders_state w.
Proof.
  intros He run. subst run. rewrite updateOrderStatus_world, He. simpl.
  split_and!; try done. by apply issued_app.
Qed.

(** ** [uploadPaymentReceipt] *)

(** X9.  [uploadPaymentReceipt] without a user throws before asking the
    store anything.  With a user, an accepted insert adds one receipt,
    pending and attributed to the user, for the order id it was given
    (whether or not an order has that id) and reloads the list; a refused
    insert throws and adds nothing.  Orders are never touched. *)
Theorem uploadPaymentReceipt_outcome be sess orderId receiptUrl w :
  let run := uploadPaymentReceipt be sess orderId receiptUrl w in
  (user sess = None → run = (Throw (new_Error "User not authenticated"), w)) ∧
  (∀ uid, user sess = Some uid →
     orders (store run.2) = orders (store w) ∧
     match payment_receipts_insert_error be with
     | Some e =>
         run.1 = Throw (new_Error (if instanceof_Error e then message e
                                   else "Failed to upload receipt")) ∧
         payment_receipts (store run.2) = payment_receipts (store w) ∧
         useOrders_state run.2 = useOrders_state w
     | None =>
         run.1 = Normal tt ∧
         payment_receipts (store run.2) =
           payment_receipts (store w) ++
             [mkPaymentReceipt orderId receiptUrl uid "pending"] ∧
         useOrders_state run.2 =
           reloaded be sess (store w) (useOrders_state w)
     end).
Proof.
  intros run. subst run. unfold uploadPaymentReceipt. split.
  - by intros ->.
  - intros uid ->.
    unfold try_catch, bind, payment_receipts_insert, write, throw.
    destruct (payment_receipts_insert_error be); [done |]. simpl.
    rewrite fetchOrders_world. simpl.
    assert (∀ l (s : @Store num),
              payment_receipts (records l s) = payment_receipts s ∧
              orders (records l s) = orders s) as Hrec.
    { induction l as [|r l IH]; intros s; [done |].
      unfold records in *. simpl. by destruct (IH (record r s)) as [-> ->]. }
    destruct (Hrec (fetch_requests be sess)
                (add_receipt (mkPaymentReceipt orderId receiptUrl uid "pending")
                   (record (PaymentReceiptsInsert orderId receiptUrl uid) (store w))))
      as [-> ->].
    done.
Qed.

End Orders_more.

(** * The cart hook, the rest of it *)

(** What the store decides for the two calls that only [addToCart] makes:
    the lookup of the row of a product and the insert of a new row.  These
    two calls are not among the recorded requests; what is said of
    [addToCart] is said of the tables. *)
Record CartBackend : Type := mkCartBackend {
  cart_items_lookup_error : option Thrown;
  (* the error [.single()] gives when the rows are not exactly one *)
  cart_items_single_error : Thrown;
  cart_items_insert_error : option Thrown;
  (* [gen_random_uuid()] for the new row *)
  cart_items_new_id : string;
}.

(** [ToBoolean] on a number, as [price || 0] needs it. *)
Class JsTruthy (num : Type) : Type := num_truthy : num → bool.

#[export] Instance Z_JsTruthy : JsTruthy Z := λ z, bool_decide (z ≠ 0%Z).

Section Cart_hook.

Context {num : Type} `{JsNumber num} `{JsTruthy num}.

Local Notation "x <- c ;; k" := (bind c (λ x, k))
  (at level 100, c at next level, k at level 200, right associativity).

Section Cart_operations.

Variable supabase : Backend.
Variable cart_supabase : CartBackend.
Variable auth : Session.

(** [supabase.from('cart_items').select('*').eq('buyer_id', buyer_id)
      .eq('product_id', product_id).single()] *)
Definition cart_items_lookup (buyer_id product_id : string)
  : @M num (Reply (@CartRow)) :=
  λ w, (Normal
          match cart_items_lookup_error cart_supabase with
          | Some e => mkReply None (Some e)
          | None =>
              match filter (λ r, cr_buyer_id r = buyer_id ∧
                                 cr_product_id r = product_id)
                      (cart_items (store w)) with
              | [row] => mkReply (Some row) None
              | _ => mkReply None (Some (cart_items_single_error cart_supabase))
              end
          end, w).

(** [supabase.from('cart_items').insert({ buyer_id, product_id, quantity })] *)
Definition cart_items_insert (buyer_id product_id : string) (quantity : Z)
  : @M num (Reply unit) :=
  λ w, match cart_items_insert_error cart_supabase with
       | Some e => (Normal (mkReply None (Some e)), w)
       | None =>
           (Normal (mkReply (Some tt) None),
            set_store
              (set_cart_items
                 (λ rows, rows ++ [mkCartRow (cart_items_new_id cart_supabase)
                                     buyer_id product_id quantity])) w)
       end.

(** [addToCart(productId, quantity = 1)] *)
Definition addToCart (productId : string) (quantity : option Z) : @M num unit :=
  let quantity := default 1%Z quantity in
  match user auth with
  | None => throw (new_Error "User not authenticated")
  | Some uid =>
      try_catch
        (r <- cart_items_lookup uid productId ;;
         _ <- match data r with
              | Some existingItem =>
                  r' <- cart_items_update_quantity supabase (cr_id existingItem)
                          (cr_quantity existingItem + quantity) ;;
                  match error r' with
                  | Some e => throw e
                  | None => ret tt
                  end
              | None =>
                  r' <- cart_items_insert uid productId quantity ;;
                  match error r' with
                  | Some e => throw e
                  | None => ret tt
                  end
              end ;;
         fetchCartItems supabase auth)
        (λ err, throw (new_Error (message_or "Failed to add to cart" err)))
  end.

Definition clearCart : @M num unit :=
  match user auth with
  | None => ret tt
  | Some uid =>
      try_catch
        (r <- cart_items_delete_buyer supabase uid ;;
         match error r with
         | Some e => throw e
         | None => setCartItems []
         end)
        (λ err, throw (new_Error (message_or "Failed to clear cart" err)))
  end.

End Cart_operations.

(** [cartItems.reduce((total, item) =>
      total + (item.product?.price || 0) * item.quantity, 0)] *)
Definition getTotalAmount (cartItems : list (@CartRow * option (@Product num)))
  : num :=
  foldl (λ total item,
           num_add total
             (num_mul
                match item.2 with
                | Some product =>
                    if num_truthy (p_price product) then p_price product
                    else num_zero
                | None => num_zero
                end
                (cr_quantity item.1)))
    num_zero cartItems.

(** [cartItems.reduce((total, item) => total + item.quantity, 0)] *)
Definition getTotalItems (cartItems : list (@CartRow * option (@Product num)))
  : Z :=
  foldl (λ total item, (total + cr_quantity item.1)%Z) 0%Z cartItems.

End Cart_hook.

#[export] Instance CartRow_eq_dec : EqDecision CartRow.
Proof. solve_decision. Defined.

Lemma filter_all {A} (P : A → Prop) `{∀ x, Decision (P x)} (l : list A) :
  Forall P l → filter P l = l.
Proof.
  induction 1 as [|x l Hx Hl IH]; [done |]. by rewrite filter_cons_True, IH.
Qed.

Section Cart_facts.

Context {num : Type} `{JsNumber num} `{JsTruthy num}.

Implicit Types (be : Backend) (cbe : CartBackend) (sess : Session).
Implicit Types (w : @World num) (s : @Store num) (c : @CartState num).
Implicit Types (row r : CartRow) (rows : list CartRow).
Implicit Types (uid pid id : string) (q : Z).

(** ** [fetchCartItems] *)

(** The rows the cart query returns for a buyer, each with its product. *)
Definition cart_rows uid s : list (CartRow * option (@Product num)) :=
  (λ r, (r, head (filter (λ p, p_id p = cr_product_id r) (products s))))
    <$> filter (λ r, cr_buyer_id r = uid) (cart_items s).

(** The state of the cart hook after a reload over the store [s]. *)
Definition cart_reloaded be sess s c : CartState :=
  match user sess with
  | None => mkCartState [] false (st_cart_error c)
  | Some uid =>
      match cart_items_select_error be with
      | Some e =>
          mkCartState (st_cartItems c) false
            (Some (message_or "Failed to fetch cart items" e))
      | None => mkCartState (cart_rows uid s) false None
      end
  end.

Definition cart_reads sess : list (@Request num) :=
  match user sess with
  | None => []
  | Some uid => [CartItemsSelect uid]
  end.

Lemma fetchCartItems_world be sess w :
  fetchCartItems be sess w =
    (Normal tt,
     mkWorld (records (cart_reads sess) (store w)) (useOrders_state w)
       (cart_reloaded be sess (store w) (useCart_state w))).
Proof.
  unfold fetchCartItems, cart_reads, cart_reloaded, records, try_finally,
    try_catch, bind, cart_items_select, read, setCartItems, setCartLoading,
    setCartError, modify, throw.
  destruct w as [s st c]. destruct (user sess); simpl; [|done].
  destruct (cart_items_select_error be); done.
Qed.

(** X10.  [fetchCartItems] never throws, never leaves the hook loading and
    writes nothing.  Without a user it asks nothing and empties the list.
    With one, a read that succeeds lists exactly the rows of that buyer,
    each with the product its [product_id] names (or none when no product
    has that id); a read that fails keeps the list that was shown and puts
    the message in the error state. *)
Theorem fetchCartItems_outcome be sess w :
  let run := fetchCartItems be sess w in
  run.1 = Normal tt ∧
  st_cart_loading (useCart_state run.2) = false ∧
  Forall (λ req, is_write req = false) (issued w run.2) ∧
  cart_items (store run.2) = cart_items (store w) ∧
  (user sess = None →
   issued w run.2 = [] ∧ st_cartItems (useCart_state run.2) = []) ∧
  (∀ uid, user sess = Some uid →
     match cart_items_select_error be with
     | None =>
         st_cart_error (useCart_state run.2) = None ∧
         (∀ r, r ∈ (st_cartItems (useCart_state run.2)).*1 ↔
               r ∈ cart_items (store w) ∧ cr_buyer_id r = uid) ∧
         (∀ r p, (r, Some p) ∈ st_cartItems (useCart_state run.2) →
                 p ∈ products (store w) ∧ p_id p = cr_product_id r)
     | Some e =>
         st_cartItems (useCart_state run.2) = st_cartItems (useCart_state w) ∧
         st_cart_error (useCart_state run.2) =
           Some (if instanceof_Error e then message e
                 else "Failed to fetch cart items")
     end).
Proof.
  intros run. subst run. rewrite fetchCartItems_world. simpl.
  assert (issued w
            (mkWorld (records (cart_reads sess) (store w)) (useOrders_state w)
               (cart_reloaded be sess (store w) (useCart_state w)))
          = cart_reads sess) as ->.
  { apply issued_app. simpl. apply records_requests. }
  destruct (records_tables (cart_reads sess) (store w)) as (_ & _ & _ & ->).
  unfold cart_reloaded, cart_reads.
  split; [done |]. split.
  { destruct (user sess); [|done]. by destruct (cart_items_select_error be). }
  split.
  { destruct (user sess); repeat constructor. }
  split; [done |]. split.
  { by intros ->. }
  intros uid ->. destruct (cart_items_select_error be) as [e|]; [done |].
  simpl. split; [done |]. split.
  - intros r. unfold cart_rows. rewrite <- list_fmap_compose.
    rewrite list_elem_of_fmap. split.
    + intros (r' & -> & Hr'). by apply list_elem_of_filter in Hr' as [? ?].
    + intros [Hr Hb]. exists r. split; [done |]. by apply list_elem_of_filter.
  - intros r p Hin. unfold cart_rows in Hin.
    apply list_elem_of_fmap in Hin as (r' & [= <- Hp] & _).
    symmetry in Hp. apply head_Some_elem_of, list_elem_of_filter in Hp.
    destruct Hp. done.
Qed.

(** ** [removeFromCart] and [updateQuantity] *)

Lemma removeFromCart_world be sess id w :
  removeFromCart be sess id w =
    match cart_items_delete_error be with
    | Some e =>
        (Throw (new_Error (message_or "Failed to remove from cart" e)),
         set_store (record (CartItemsDeleteId id)) w)
    | None =>
        fetchCartItems be sess
          (set_store (λ s, set_cart_items (filter (λ r, cr_id r ≠ id))
                             (record (CartItemsDeleteId id) s)) w)
    end.
Proof.
  unfold removeFromCart, try_catch, bind, cart_items_delete_id, write, throw.
  destruct (cart_items_delete_error be); [done |]. simpl.
  by rewrite fetchCartItems_world.
Qed.

(** X11.  An accepted [removeFromCart] takes out the rows with that id and
    no other, keeping the order of the rest; an id that no row has changes
    nothing and is no error.  A refused one throws and leaves the table and
    the list of the hook as they were. *)
Theorem removeFromCart_outcome be sess id w :
  let run := removeFromCart be sess id w in
  match cart_items_delete_error be with
  | None =>
      run.1 = Normal tt ∧
      cart_items (store run.2) = filter (λ r, cr_id r ≠ id) (cart_items (store w)) ∧
      (∀ r, r ∈ cart_items (store run.2) ↔
            r ∈ cart_items (store w) ∧ cr_id r ≠ id) ∧
      (id ∉ cr_id <$> cart_items (store w) →
       cart_items (store run.2) = cart_items (store w))
  | Some e =>
      run.1 = Throw (new_Error (if instanceof_Error e then message e
                                else "Failed to remove from cart")) ∧
      cart_items (store run.2) = cart_items (store w) ∧
      useCart_state run.2 = useCart_state w
  end.
Proof.
  intros run. subst run. rewrite removeFromCart_world.
  destruct (cart_items_delete_error be) as [e|]; [done |].
  rewrite fetchCartItems_world. simpl.
  destruct (records_tables (cart_reads sess)
              (set_cart_items (filter (λ r, cr_id r ≠ id))
                 (record (CartItemsDeleteId id) (store w))))
    as (_ & _ & _ & ->).
  simpl. split_and!; [done | done | |].
  - intros r. by rewrite list_elem_of_filter, (comm and).
  - intros Hnone. apply filter_all, Forall_forall. intros r Hr Hid.
    apply Hnone. rewrite <- Hid. apply list_elem_of_fmap. by exists r.
Qed.

Lemma updateQuantity_world be sess id q w :
  (0 < q)%Z →
  updateQuantity be sess id q w =
    match cart_items_update_error be with
    | Some e =>
        (Throw (new_Error (message_or "Failed to update quantity" e)),
         set_store (record (CartItemsUpdateQuantity id q)) w)
    | None =>
        fetchCartItems be sess
          (set_store
             (λ s, set_cart_items
                     (fmap (λ r, if decide (cr_id r = id)
                                 then with_quantity q r else r))
                     (record (CartItemsUpdateQuantity id q) s)) w)
    end.
Proof.
  intros Hq. unfold updateQuantity. rewrite decide_False by lia.
  unfold try_catch, bind, cart_items_update_quantity, write, throw.
  destruct (cart_items_update_error be); [done |]. simpl.
  by rewrite fetchCartItems_world.
Qed.

(** X12.  For a quantity above 0 an accepted [updateQuantity] gives that
    quantity to the rows with that id and touches nothing else: the other
    rows, and the buyer and product of every row, are as they were; an id
    that no row has changes nothing and is no error.  A refused one throws
    and leaves the table and the list of the hook as they were. *)
Theorem updateQuantity_positive be sess id q w :
  (0 < q)%Z →
  let run := updateQuantity be sess id q w in
  match cart_items_update_error be with
  | None =>
      run.1 = Normal tt ∧
      (∀ r, r ∈ cart_items (store w) → cr_id r = id →
            with_quantity q r ∈ cart_items (store run.2)) ∧
      (∀ r, r ∈ cart_items (store w) → cr_id r ≠ id →
            r ∈ cart_items (store run.2)) ∧
      (∀ r', r' ∈ cart_items (store run.2) → cr_id r' = id → cr_quantity r' = q) ∧
      (λ r, (cr_id r, cr_buyer_id r, cr_product_id r)) <$> cart_items (store run.2)
        = (λ r, (cr_id r, cr_buyer_id r, cr_product_id r)) <$> cart_items (store w) ∧
      (id ∉ cr_id <$> cart_items (store w) →
       cart_items (store run.2) = cart_items (store w))
  | Some e =>
      run.1 = Throw (new_Error (if instanceof_Error e then message e
                                else "Failed to update quantity")) ∧
      cart_items (store run.2) = cart_items (store w) ∧
      useCart_state run.2 = useCart_state w
  end.
Proof.
  intros Hq run. subst run. rewrite updateQuantity_world by done.
  destruct (cart_items_update_error be) as [e|]; [done |].
  rewrite fetchCartItems_world. simpl.
  destruct (records_tables (cart_reads sess)
              (set_cart_items
                 (fmap (λ r, if decide (cr_id r = id) then with_quantity q r else r))
                 (record (CartItemsUpdateQuantity id q) (store w))))
    as (_ & _ & _ & ->).
  simpl. split_and!.
  - done.
  - intros r Hr Hid. apply list_elem_of_fmap. exists r.
    by rewrite decide_True.
  - intros r Hr Hid. apply list_elem_of_fmap. exists r.
    by rewrite decide_False.
  - intros r' Hr' Hid. apply list_elem_of_fmap in Hr' as (r & -> & _).
    by case_decide.
  - rewrite <- list_fmap_compose. apply list_fmap_ext. intros i r _. simpl.
    by case_decide.
  - intros Hnone. rewrite <- (list_fmap_id (cart_items (store w))) at 2.
    apply list_fmap_ext. intros i r Hr. simpl. rewrite decide_False; [done |].
    intros <-. apply Hnone. apply list_elem_of_fmap. exists r.
    split; [done |]. by apply list_elem_of_lookup_2 in Hr.
Qed.

End Cart_facts.

Section Cart_changes.

Context {num : Type} `{JsNumber num} `{JsTruthy num}.

Local Notation "x <- c ;; k" := (bind c (λ x, k))
  (at level 100, c at next level, k at level 200, right associativity).

Implicit Types (be : Backend) (cbe : CartBackend) (sess : Session).
Implicit Types (w : @World num) (s : @Store num).
Implicit Types (row r : CartRow) (rows : list CartRow).
Implicit Types (uid pid id : string) (q : Z).

(** ** [clearCart] *)

(** X13.  [clearCart] without a user returns at once: nothing is asked of
    the store and nothing changes.  With a user, an accepted delete leaves
    no row of that buyer and every row of the other buyers, and the hook
    empties its list without reading the cart again; a refused delete
    throws and leaves the table and the list as they were. *)
Theorem clearCart_outcome be sess w :
  let run := clearCart be sess w in
  (user sess = None → run = (Normal tt, w)) ∧
  (∀ uid, user sess = Some uid →
     match cart_items_delete_error be with
     | None =>
         run.1 = Normal tt ∧
         (∀ r, r ∈ cart_items (store run.2) ↔
               r ∈ cart_items (store w) ∧ cr_buyer_id r ≠ uid) ∧
         st_cartItems (useCart_state run.2) = [] ∧
         issued w run.2 = [CartItemsDeleteBuyer uid]
     | Some e =>
         run.1 = Throw (new_Error (if instanceof_Error e then message e
                                   else "Failed to clear cart")) ∧
         cart_items (store run.2) = cart_items (store w) ∧
         useCart_state run.2 = useCart_state w
     end).
Proof.
  intros run. subst run. unfold clearCart. split.
  - by intros ->.
  - intros uid ->.
    unfold try_catch, bind, cart_items_delete_buyer, write, setCartItems,
      modify, throw.
    destruct (cart_items_delete_error be) as [e|]; [done |]. simpl.
    split_and!; [done | | done | by apply issued_app].
    intros r. by rewrite list_elem_of_filter, (comm and).
Qed.

(** ** [addToCart] *)

Definition row_key r : string * string := (cr_buyer_id r, cr_product_id r).

(** The new row of [addToCart]. *)
Definition added_row cbe uid pid q : CartRow :=
  mkCartRow (cart_items_new_id cbe) uid pid q.

Lemma addToCart_world be cbe sess uid pid quantity w :
  user sess = Some uid →
  let q := default 1%Z quantity in
  let inserted :=
    match cart_items_insert_error cbe with
    | Some e => (Throw (new_Error (message_or "Failed to add to cart" e)), w)
    | None =>
        fetchCartItems be sess
          (set_store (set_cart_items (λ rows, rows ++ [added_row cbe uid pid q])) w)
    end in
  addToCart be cbe sess pid quantity w =
    match cart_items_lookup_error cbe with
    | Some _ => inserted
    | None =>
        match filter (λ r, cr_buyer_id r = uid ∧ cr_product_id r = pid)
                (cart_items (store w)) with
        | [row] =>
            match cart_items_update_error be with
            | Some e =>
                (Throw (new_Error (message_or "Failed to add to cart" e)),
                 set_store
                   (record (CartItemsUpdateQuantity (cr_id row)
                              (cr_quantity row + q))) w)
            | None =>
                fetchCartItems be sess
                  (set_store
                     (λ s, set_cart_items
                             (fmap (λ r, if decide (cr_id r = cr_id row)
                                         then with_quantity (cr_quantity row + q) r
                                         else r))
                             (record (CartItemsUpdateQuantity (cr_id row)
                                        (cr_quantity row + q)) s)) w)
            end
        | _ => inserted
        end
    end.
Proof.
  intros Huser q inserted. subst q inserted. unfold addToCart. rewrite Huser.
  unfold try_catch, bind at 1. unfold cart_items_lookup.
  assert (∀ w', fetchCartItems be sess w' =
                (Normal tt, (fetchCartItems be sess w').2)) as Hfetch.
  { intros w'. by rewrite fetchCartItems_world. }
  assert (
    (let (c, w') :=
       (_ <- (r' <- cart_items_insert cbe uid pid (default 1%Z quantity) ;;
              match error r' with
              | Some e => throw e
              | None => ret tt
              end) ;;
        fetchCartItems be sess) w in
     match c with
     | Normal a => (Normal a, w')
     | Throw e => throw (new_Error (message_or "Failed to add to cart" e)) w'
     end) =
    match cart_items_insert_error cbe with
    | Some e => (Throw (new_Error (message_or "Failed to add to cart" e)), w)
    | None =>
        fetchCartItems be sess
          (set_store
             (set_cart_items
                (λ rows, rows ++ [added_row cbe uid pid (default 1%Z quantity)])) w)
    end) as Hins.
  { unfold bind, cart_items_insert, throw, ret, added_row.
    destruct (cart_items_insert_error cbe); [done |]. simpl.
    by rewrite Hfetch. }
  destruct (cart_items_lookup_error cbe); simpl; [exact Hins |].
  destruct (filter _ (cart_items (store w))) as [|row [|row' rest]]; simpl;
    [exact Hins | | exact Hins].
  unfold bind, cart_items_update_quantity, write, throw, ret.
  destruct (cart_items_update_error be); [done |]. simpl.
  by rewrite Hfetch.
Qed.

(** With one row per buyer and product, the lookup finds the row of the
    product if there is one. *)
Lemma lookup_single rows uid pid :
  NoDup (row_key <$> rows) →
  (filter (λ r, cr_buyer_id r = uid ∧ cr_product_id r = pid) rows = [] ∧
   ∀ r, r ∈ rows → ¬ (cr_buyer_id r = uid ∧ cr_product_id r = pid)) ∨
  (∃ row, filter (λ r, cr_buyer_id r = uid ∧ cr_product_id r = pid) rows = [row] ∧
          row ∈ rows ∧ cr_buyer_id row = uid ∧ cr_product_id row = pid).
Proof.
  induction rows as [|a rows IH]; intros Hnd.
  - left. split; [done |]. intros r Hr. by apply elem_of_nil in Hr.
  - rewrite fmap_cons in Hnd. apply NoDup_cons in Hnd as [Ha Hnd].
    destruct (decide (cr_buyer_id a = uid ∧ cr_product_id a = pid)) as [Hm|Hm].
    + right. exists a. rewrite filter_cons_True by done.
      split; [|split; [left | done]]. f_equal. apply filter_none, Forall_forall.
      intros r Hr [Hb Hp]. apply Ha. apply list_elem_of_fmap. exists r.
      split; [|done]. unfold row_key. destruct Hm as [<- <-]. by rewrite Hb, Hp.
    + rewrite filter_cons_False by done. destruct (IH Hnd) as [[Hnil Hno]|Hyes].
      * left. split; [done |]. intros r Hr.
        apply elem_of_cons in Hr as [->|Hr]; [done | by apply Hno].
      * right. destruct Hyes as (row & Hf & Hin & Hb & Hp). exists row.
        split_and!; [done | by right | done..].
Qed.

(** X14.  In a cart table with one id per row and one row per buyer and
    product, an [addToCart] the store accepts either finds the row of the
    product and adds the quantity to it, every other row staying as it
    was, or finds none and appends one row with the quantity; one is the
    quantity when none is given.  Both ways the table still has one id per
    row and one row per buyer and product. *)
Theorem addToCart_table be cbe sess uid pid quantity w :
  user sess = Some uid →
  cart_items_lookup_error cbe = None →
  cart_items_update_error be = None →
  cart_items_insert_error cbe = None →
  NoDup (cr_id <$> cart_items (store w)) →
  NoDup (row_key <$> cart_items (store w)) →
  cart_items_new_id cbe ∉ cr_id <$> cart_items (store w) →
  let q := default 1%Z quantity in
  let run := addToCart be cbe sess pid quantity w in
  let rows := cart_items (store w) in
  let rows' := cart_items (store run.2) in
  run.1 = Normal tt ∧
  NoDup (cr_id <$> rows') ∧
  NoDup (row_key <$> rows') ∧
  ((∃ row, row ∈ rows ∧ cr_buyer_id row = uid ∧ cr_product_id row = pid ∧
           rows' = (λ r, if decide (r = row)
                         then with_quantity (cr_quantity row + q) row
                         else r) <$> rows) ∨
   ((∀ r, r ∈ rows → ¬ (cr_buyer_id r = uid ∧ cr_product_id r = pid)) ∧
    rows' = rows ++ [added_row cbe uid pid q])).
Proof.
  intros Huser Hlook Hupd Hins Hids Hkeys Hnew q run rows rows'.
  subst q run rows rows'.
  rewrite (addToCart_world be cbe sess uid) by done. simpl.
  rewrite Hlook, Hupd, Hins. generalize (default 1%Z quantity). intros q.
  destruct (lookup_single (cart_items (store w)) uid pid Hkeys)
    as [[-> Hno]|(row & -> & Hin & Hb & Hp)].
  - rewrite fetchCartItems_world. simpl.
    destruct (records_tables (cart_reads sess)
                (set_cart_items (λ rows, rows ++ [added_row cbe uid pid q])
                   (store w))) as (_ & _ & _ & ->).
    simpl. split_and!; [done | | | by right].
    + rewrite fmap_app. apply NoDup_app. split_and!; [done | | apply NoDup_singleton].
      intros x Hx Hx'. apply list_elem_of_singleton in Hx' as ->. done.
    + rewrite fmap_app. apply NoDup_app. split_and!; [done | | apply NoDup_singleton].
      intros x Hx Hx'. apply list_elem_of_singleton in Hx' as ->.
      apply list_elem_of_fmap in Hx as (r & Hr & Hrin).
      apply (Hno r Hrin). by injection Hr as <- <-.
  - rewrite fetchCartItems_world. simpl.
    destruct (records_tables (cart_reads sess)
                (set_cart_items
                   (fmap (λ r, if decide (cr_id r = cr_id row)
                               then with_quantity (cr_quantity row + q) r else r))
                   (record (CartItemsUpdateQuantity (cr_id row)
                              (cr_quantity row + q)) (store w))))
      as (_ & _ & _ & ->).
    simpl.
    assert ((λ r, if decide (cr_id r = cr_id row)
                  then with_quantity (cr_quantity row + q) r else r)
              <$> cart_items (store w) =
            (λ r, if decide (r = row)
                  then with_quantity (cr_quantity row + q) row else r)
              <$> cart_items (store w)) as ->.
    { apply list_fmap_ext. intros i r Hr. simpl.
      apply list_elem_of_lookup_2 in Hr.
      destruct (decide (cr_id r = cr_id row)) as [Hid|Hid].
      - rewrite (NoDup_fmap_eq cr_id (cart_items (store w)) r row) by done.
        by rewrite decide_True.
      - rewrite decide_False; [done |]. by intros ->. }
    split_and!; [done | | | left; by exists row].
    + rewrite <- list_fmap_compose.
      rewrite (list_fmap_ext _ cr_id (cart_items (store w))); [done |].
      intros i r _. simpl. case_decide; [by subst | done].
    + rewrite <- list_fmap_compose.
      rewrite (list_fmap_ext _ row_key (cart_items (store w))); [done |].
      intros i r _. simpl. case_decide; [by subst | done].
Qed.

End Cart_changes.

Section Cart_totals.

Context {num : Type} `{JsNumber num} `{JsTruthy num}.

Implicit Types (be : Backend) (cbe : CartBackend) (sess : Session).
Implicit Types (w : @World num) (s : @Store num).
Implicit Types (row r : CartRow) (rows : list CartRow).
Implicit Types (uid pid id : string) (q : Z).

(** X15.  When the store refuses the write of [addToCart] (the update of
    the row found, or the insert when none is found), [addToCart] throws
    and neither the table nor the list of the hook changes; without a user
    it throws before asking anything. *)
Theorem addToCart_refused be cbe sess pid quantity w :
  let run := addToCart be cbe sess pid quantity w in
  (user sess = None → run = (Throw (new_Error "User not authenticated"), w)) ∧
  (∀ uid e, user sess = Some uid →
     cart_items_update_error be = Some e →
     cart_items_insert_error cbe = Some e →
     run.1 = Throw (new_Error (if instanceof_Error e then message e
                               else "Failed to add to cart")) ∧
     cart_items (store run.2) = cart_items (store w) ∧
     useCart_state run.2 = useCart_state w).
Proof.
  intros run. subst run. split.
  - unfold addToCart. by intros ->.
  - intros uid e Huser Hupd Hins.
    rewrite (addToCart_world be cbe sess uid) by done. simpl.
    rewrite Hupd, Hins.
    destruct (cart_items_lookup_error cbe); [done |].
    by destruct (filter _ (cart_items (store w))) as [|row [|row' rest]].
Qed.

(** The quantities of some rows, added up. *)
Definition total_quantity rows : Z := foldr (λ r total, (cr_quantity r + total)%Z) 0%Z rows.

Lemma getTotalItems_cart_rows uid s :
  getTotalItems (cart_rows uid s) =
    total_quantity (filter (λ r, cr_buyer_id r = uid) (cart_items s)).
Proof.
  unfold getTotalItems, cart_rows. rewrite foldl_fmap. simpl.
  generalize (filter (λ r, cr_buyer_id r = uid) (cart_items s)). intros rows.
  assert (∀ a, foldl (λ total r, (total + cr_quantity r)%Z) a rows =
               (a + total_quantity rows)%Z) as Hshift.
  { induction rows as [|r rows IH]; intros a; simpl; [lia |]. rewrite IH. lia. }
  by rewrite Hshift.
Qed.

Lemma update_total rows row q uid :
  NoDup (cr_id <$> rows) → row ∈ rows → cr_buyer_id row = uid →
  total_quantity
    (filter (λ r, cr_buyer_id r = uid)
       ((λ r, if decide (cr_id r = cr_id row)
              then with_quantity (cr_quantity row + q) r else r) <$> rows)) =
  (total_quantity (filter (λ r, cr_buyer_id r = uid) rows) + q)%Z.
Proof.
  intros Hnd Hrow Hb. induction rows as [|a rows IH]; [by apply elem_of_nil in Hrow |].
  rewrite fmap_cons in Hnd. apply NoDup_cons in Hnd as [Ha Hnd]. rewrite fmap_cons.
  destruct (decide (cr_id a = cr_id row)) as [Hid|Hid].
  - assert (row = a) as ->.
    { apply elem_of_cons in Hrow as [->|Hrow]; [done |]. exfalso. apply Ha.
      rewrite Hid. by apply list_elem_of_fmap_2. }
    assert ((λ r, if decide (cr_id r = cr_id a)
                  then with_quantity (cr_quantity a + q) r else r) <$> rows = rows)
      as ->.
    { rewrite <- (list_fmap_id rows) at 2. apply list_fmap_ext. intros i r Hr.
      simpl. rewrite decide_False; [done |]. intros Heq. apply Ha.
      rewrite <- Heq. apply list_elem_of_fmap_2.
      by apply list_elem_of_lookup_2 in Hr. }
    rewrite !filter_cons_True by done. simpl. lia.
  - assert (row ∈ rows) as Hin.
    { apply elem_of_cons in Hrow as [->|Hrow]; [done | done]. }
    destruct (decide (cr_buyer_id a = uid)).
    + rewrite !filter_cons_True by done. simpl. rewrite IH by done. lia.
    + rewrite !filter_cons_False by done. by apply IH.
Qed.

(** X16.  After an [addToCart] the store accepts, reload included, the
    count [getTotalItems] gives is what it would have been on the cart
    before, plus the quantity added, whether the product was in the cart
    or not. *)
Theorem addToCart_total_items be cbe sess uid pid quantity w :
  user sess = Some uid →
  cart_items_lookup_error cbe = None →
  cart_items_update_error be = None →
  cart_items_insert_error cbe = None →
  cart_items_select_error be = None →
  NoDup (cr_id <$> cart_items (store w)) →
  NoDup (row_key <$> cart_items (store w)) →
  let run := addToCart be cbe sess pid quantity w in
  getTotalItems (st_cartItems (useCart_state run.2)) =
    (getTotalItems (cart_rows uid (store w)) + default 1 quantity)%Z.
Proof.
  intros Huser Hlook Hupd Hins Hsel Hids Hkeys run. subst run.
  rewrite (addToCart_world be cbe sess uid) by done. simpl.
  rewrite Hlook, Hupd, Hins. generalize (default 1%Z quantity). intros q.
  destruct (lookup_single (cart_items (store w)) uid pid Hkeys)
    as [[-> Hno]|(row & -> & Hin & Hb & Hp)];
    rewrite fetchCartItems_world; simpl; unfold cart_reloaded;
    rewrite Huser, Hsel; simpl; rewrite !getTotalItems_cart_rows; simpl.
  - rewrite filter_app, filter_cons_True, filter_nil by done.
    unfold total_quantity. rewrite foldr_app. simpl.
    generalize (filter (λ r, cr_buyer_id r = uid) (cart_items (store w))).
    intros rows. induction rows as [|r rows IH]; simpl; lia.
  - by apply update_total.
Qed.

End Cart_totals.

(** ** The total of the cart and the totals of the orders *)

Section Exact_arithmetic.

Context {num : Type} `{JsNumber num} `{JsTruthy num}.

(** Numbers that add up exactly, as integers do (and as doubles do not):
    addition is associative and commutative with 0 as its unit, and only 0
    is falsy. *)
Hypothesis add_assoc : ∀ x y z : num,
  num_add x (num_add y z) = num_add (num_add x y) z.
Hypothesis add_comm : ∀ x y : num, num_add x y = num_add y x.
Hypothesis add_zero : ∀ x : num, num_add num_zero x = x.
Hypothesis falsy_zero : ∀ x : num, num_truthy x = false → x = num_zero.

Implicit Types (item : @CartItem num) (items cart : list (@CartItem num)).
Implicit Types (groups : list (string * list (@CartItem num))).

(** [sum + item.product.price * item.quantity], from [a] on. *)
Definition amount_from (a : num) items : num :=
  foldl (λ sum item,
           num_add sum (num_mul (p_price (ci_product item)) (ci_quantity item)))
    a items.

Lemma amount_from_shift a items :
  amount_from a items = num_add a (amount_from num_zero items).
Proof.
  revert a. induction items as [|item items IH]; intros a; simpl.
  - by rewrite add_comm, add_zero.
  - unfold amount_from in *. simpl. rewrite IH, (IH (num_add num_zero _)).
    by rewrite add_zero, add_assoc.
Qed.

Lemma amount_from_Permutation a items items' :
  items ≡ₚ items' → amount_from a items = amount_from a items'.
Proof.
  intros Hperm. revert a.
  induction Hperm as [|x l l' _ IH|x y l|l l' l'' _ IH1 _ IH2]; intros a.
  - done.
  - apply IH.
  - unfold amount_from. simpl. f_equal.
    by rewrite <- !add_assoc, (add_comm (num_mul _ (ci_quantity y))).
  - by rewrite IH1.
Qed.

Lemma new_orders_amount be uid addr notes groups k nid a :
  foldl (λ sum o, num_add sum (o_total_amount o)) a
    (new_orders be uid addr notes k groups nid) =
  amount_from a (mjoin groups.*2).
Proof.
  revert k nid a. induction groups as [|[sellerId items] groups IH];
    intros k nid a; simpl; [done |].
  rewrite IH. unfold amount_from at 2. rewrite foldl_app.
  fold (amount_from a items). unfold totalAmount.
  fold (amount_from num_zero items). by rewrite <- amount_from_shift.
Qed.

(** X17.  With numbers that add up exactly, the totals of the orders of a
    checkout add up to the total [getTotalAmount] shows for the cart that
    was checked out. *)
Theorem createOrder_totals_add_up be sess uid addr notes
    (cartItems : list (CartRow * option (@Product num))) cart w :
  user sess = Some uid →
  accepted be 0 (distinct_sellers cart) →
  Forall2 (λ fetched item,
             fetched.2 = Some (ci_product item) ∧
             cr_quantity fetched.1 = ci_quantity item) cartItems cart →
  ∃ created,
    (createOrder be sess cart addr notes w).1 = Normal created ∧
    foldl (λ sum o, num_add sum (o_total_amount o)) num_zero created =
      getTotalAmount cartItems.
Proof.
  intros Huser Hacc Hcart. rewrite <- ordersBySeller_length in Hacc.
  destruct (createOrder_accepted be sess uid addr notes cart w) as [Hres _];
    [done.. |].
  eexists. split; [done |].
  rewrite new_orders_amount.
  rewrite (amount_from_Permutation _ _ cart)
    by (unfold ordersBySeller; apply (foldl_push_Permutation cart [])).
  unfold getTotalAmount.
  assert (∀ a,
    amount_from a cart =
    foldl (λ total fetched,
             num_add total
               (num_mul
                  match fetched.2 with
                  | Some product =>
                      if num_truthy (p_price product) then p_price product
                      else num_zero
                  | None => num_zero
                  end
                  (cr_quantity fetched.1)))
      a cartItems) as Hsame; [|apply Hsame].
  clear Hacc Hres.
  induction Hcart as [|fetched item cartItems cart [Hp Hq] _ IH]; intros a;
    [done |].
  unfold amount_from in *. simpl. rewrite IH, Hp, Hq. do 3 f_equal.
  destruct (num_truthy (p_price (ci_product item))) eqn:Ht; [done |].
  by rewrite (falsy_zero _ Ht).
Qed.

End Exact_arithmetic.

(** * The checkout-session hook (src/hooks/useStripe.ts) *)

Module Stripe.

(** What [response.json()] gives: an object, of which the hook reads the
    fields [error] and [url], or a failure: the promise rejects, or the
    value is [null] and reading a field of it throws. *)
Inductive Body : Type :=
| BodyObject (error url : option string)
| BodyFails (e : Thrown).

(** What [fetch] gives: a response with its [ok] flag and its body, or a
    rejection. *)
Inductive Fetched : Type :=
| Responds (ok : bool) (body : Body)
| Rejects (e : Thrown).

Record CheckoutRequest : Type := mkCheckoutRequest {
  price_id : string;
  mode : string;
  success_url : string;
  cancel_url : string;
}.

Record State : Type := mkState {
  loading : bool;
  error : option string;
  href : string;                       (* window.location.href *)
  sent : list CheckoutRequest;         (* the bodies posted so far *)
}.

Section Hook.

Variable user : option string.
Variable origin : string.              (* window.location.origin *)
Variable fetched : Fetched.

Definition setLoading (v : bool) (st : State) : State :=
  mkState v (error st) (href st) (sent st).

Definition setError (v : option string) (st : State) : State :=
  mkState (loading st) v (href st) (sent st).

Definition post (r : CheckoutRequest) (st : State) : State :=
  mkState (loading st) (error st) (href st) (sent st ++ [r]).

Definition redirect (url : string) (st : State) : State :=
  mkState (loading st) (error st) url (sent st).

(** The [try] block, after the request is posted. *)
Definition answer (st : State) : Completion unit * State :=
  match fetched with
  | Rejects e => (Throw e, st)
  | Responds false (BodyFails e) => (Throw e, st)
  | Responds false (BodyObject error _) =>
      (Throw (new_Error (or_else error "Failed to create checkout session")), st)
  | Responds true (BodyFails e) => (Throw e, st)
  | Responds true (BodyObject _ url) =>
      match url with
      | Some u =>
          if decide (u = EmptyString)
          then (Throw (new_Error "No checkout URL received"), st)
          else (Normal tt, redirect u st)
      | None => (Throw (new_Error "No checkout URL received"), st)
      end
  end.

Definition createCheckoutSession (priceId mode : string)
    (successUrl cancelUrl : option string) (st : State)
  : Completion unit * State :=
  let successUrl := default (origin +:+ "/success") successUrl in
  let cancelUrl := default (origin +:+ "/cancel") cancelUrl in
  match user with
  | None => (Throw (new_Error "User must be authenticated"), st)
  | Some _ =>
      let st := setError None (setLoading true st) in
      let st := post (mkCheckoutRequest priceId mode successUrl cancelUrl) st in
      match answer st with
      | (Normal _, st) => (Normal tt, setLoading false st)
      | (Throw err, st) =>
          let errorMessage := message_or "An unexpected error occurred" err in
          (Throw (new_Error errorMessage),
           setLoading false (setError (Some errorMessage) st))
      end
  end.

End Hook.

(** X18.  With a user, [createCheckoutSession] posts one request, with the
    success and cancel pages of the origin when none are given, and ends
    with [loading] off.  It returns only when the response is ok and
    carries a url, and then the browser is sent to that url and no error
    is shown; in every other case the browser stays where it was, and the
    message thrown is the message shown. *)
Theorem createCheckoutSession_outcome uid origin fetched priceId mode
    successUrl cancelUrl st :
  let run := createCheckoutSession (Some uid) origin fetched priceId mode
               successUrl cancelUrl st in
  loading run.2 = false ∧
  sent run.2 = sent st ++
    [mkCheckoutRequest priceId mode
       (default (origin +:+ "/success") successUrl)
       (default (origin +:+ "/cancel") cancelUrl)] ∧
  match run.1 with
  | Normal _ =>
      (∃ err url, fetched = Responds true (BodyObject err (Some url)) ∧
                  url ≠ EmptyString ∧ href run.2 = url) ∧
      error run.2 = None
  | Throw e =>
      href run.2 = href st ∧
      instanceof_Error e = true ∧
      error run.2 = Some (message e)
  end.
Proof.
  unfold createCheckoutSession, answer. simpl.
  destruct fetched as [[] [err [url|]|e]|e]; simpl; try done.
  - case_decide; simpl; [done |]. split_and!; [done.. | | done]. eauto.
Qed.

(** X19.  The message [createCheckoutSession] throws and shows: without a
    user, that a user is needed, and then nothing is posted and the state
    is untouched; on a response that is not ok, the [error] of its body
    or, when that is missing or empty, a fixed text; on an ok response
    without a url, that no url was received; on a rejected request or an
    unreadable body, the message of what was thrown if that is an [Error],
    and a fixed text if not. *)
Theorem createCheckoutSession_message user origin fetched priceId mode
    successUrl cancelUrl st :
  let run := createCheckoutSession user origin fetched priceId mode
               successUrl cancelUrl st in
  (user = None →
   run = (Throw (new_Error "User must be authenticated"), st)) ∧
  (user ≠ None →
   (∀ err url, fetched = Responds false (BodyObject err url) →
      run.1 = Throw (new_Error
                       match err with
                       | Some text =>
                           if decide (text = EmptyString)
                           then "Failed to create checkout session" else text
                       | None => "Failed to create checkout session"
                       end)) ∧
   (∀ err, fetched = Responds true (BodyObject err None) ∨
           fetched = Responds true (BodyObject err (Some EmptyString)) →
      run.1 = Throw (new_Error "No checkout URL received")) ∧
   (∀ e, fetched = Rejects e ∨ (∃ ok, fetched = Responds ok (BodyFails e)) →
      run.1 = Throw (new_Error (if instanceof_Error e then message e
                                else "An unexpected error occurred")))).
Proof.
  unfold createCheckoutSession, answer. split.
  - by intros ->.
  - intros Huser. destruct user as [uid|]; [|done]. split_and!.
    + by intros err url ->.
    + by intros err [-> | ->].
    + intros e [-> | [[] ->]]; done.
Qed.

End Stripe.

(** * The product form of the seller dashboard
      (src/components/SellerDashboard.tsx) *)

Module Dashboard.





Section Images.

(** [String.prototype.trim] *)
Variable trim : string → string.



End Images.





End Dashboard.

(** * The order-number procedure of the schema
      ([generate_order_number] in the first migration) *)

From Stdlib Require Import Ascii.

Module OrderNumber.








Lemma string_app_inv_head (s a b : string) : s +:+ a = s +:+ b → a = b.
Proof. induction s as [|c s IH]; simpl; [done |]. intros [= Heq]. by apply IH. Qed.



End OrderNumber.

Section Order_numbers.

Context {num : Type} `{JsNumber num}.

(** X23.  With the inserts accepted, every order of a checkout carries the
    number the procedure returned for its group, or, when the procedure
    returned nothing or the empty string, ["ORD-"] and the clock reading of
    its group.  Two groups that fall back get the same number exactly when
    they read the same clock. *)
Theorem createOrder_order_numbers (be : Backend) sess uid addr notes
    (cart : list (@CartItem num)) (w : @World num) :
  user sess = Some uid →
  accepted be 0 (distinct_sellers cart) →
  ∃ created,
    (createOrder be sess cart addr notes w).1 = Normal created ∧
    (∀ k o, created !! k = Some o →
       o_order_number o =
         match data (rpc_generate_order_number be k) with
         | Some number =>
             if decide (number = EmptyString)
             then "ORD-" +:+ pretty (Date_now be k) else number
         | None => "ORD-" +:+ pretty (Date_now be k)
         end) ∧
    (∀ k k' o o', created !! k = Some o → created !! k' = Some o' →
       data (rpc_generate_order_number be k) = None →
       data (rpc_generate_order_number be k') = None →
       (o_order_number o = o_order_number o' ↔ Date_now be k = Date_now be k')).
Proof.
  intros Huser Hacc. rewrite <- ordersBySeller_length in Hacc.
  destruct (createOrder_accepted be sess uid addr notes cart w) as [Hres _];
    [done.. |].
  eexists. split; [done |].
  assert (∀ k o,
    new_orders be uid addr notes 0 (ordersBySeller cart)
      (next_order_id (store w)) !! k = Some o →
    o_order_number o = order_number be k) as Hnumber.
  { intros k o Hk. rewrite new_orders_lookup in Hk.
    destruct (ordersBySeller cart !! k) as [[sellerId items]|]; [|done].
    by injection Hk as <-. }
  split.
  - intros k o Hk. by rewrite (Hnumber k o Hk).
  - intros k k' o o' Hk Hk' Hnone Hnone'.
    rewrite (Hnumber k o Hk), (Hnumber k' o' Hk'). unfold order_number.
    rewrite Hnone, Hnone'. simpl. split.
    + intros Heq. apply OrderNumber.string_app_inv_head in Heq.
      by apply (inj pretty).
    + by intros ->.
Qed.

End Order_numbers.

(** * Runs of the rest of the hooks *)

(** A store that accepts the inserts and refuses every stock update and the
    cart delete. *)
Definition refusing_unchecked : Backend :=
  mkBackend (λ _, mkReply None None) (λ k, 1700000000000 + N.of_nat k)%N
    (λ _, None) (λ _, None) (λ _ _, Some refusal) (Some refusal)
    None None None None None None.

(** The world after the checkout of the two-seller cart. *)
Definition checked_out_world : World :=
  (createOrder accepting buyer_session two_seller_cart "12 Marina Road" None
     initial_world).2.

(** The store accepting what [addToCart] asks; a new row gets the id c3. *)
Definition cart_accepting : CartBackend :=
  mkCartBackend None
    (mkThrown false "JSON object requested, multiple (or no) rows returned")
    None "c3".


Lemma createOrder_unchecked_replies_witness :
  let run := createOrder refusing_unchecked buyer_session two_seller_cart
               "12 Marina Road" None initial_world in
  (∃ created, run.1 = Normal created ∧ length created = 2) ∧
  cart_items (store run.2) = [rowA; rowB] ∧
  products (store run.2) = [productA; productB].
Proof.
  destruct (createOrder_unchecked_replies refusing_unchecked buyer_session "u"
              "12 Marina Road" None two_seller_cart initial_world)
    as (Hres & Hcart & Hproducts).
  - reflexivity.
  - intros j _. split; reflexivity.
  - split_and!.
    + exact Hres.
    + apply Hcart. by eexists.
    + apply Hproducts. intros k i. by eexists.
Defined.

Lemma fetchOrders_listed_witness :
  let after := useOrders_state
                 (fetchOrders accepting buyer_session checked_out_world).2 in
  st_error after = None ∧
  ∀ o, o ∈ st_orders after ↔
       o ∈ orders (store checked_out_world) ∧ listed_for buyer_session "u" buyer o.
Proof.
  destruct (fetchOrders_listed accepting buyer_session "u" buyer
              checked_out_world eq_refl eq_refl) as [Hok _].
  destruct (Hok eq_refl) as (Herr & Hlist & _).
  split; [exact Herr | exact Hlist].
Defined.

Lemma createOrder_then_listed_witness :
  let run := createOrder accepting buyer_session two_seller_cart
               "12 Marina Road" None initial_world in
  ∃ created,
    run.1 = Normal created ∧ length created = 2 ∧
    ∀ o, o ∈ created → o ∈ st_orders (useOrders_state run.2).
Proof.
  destruct (createOrder_then_listed accepting buyer_session "u" buyer
              "12 Marina Road" None two_seller_cart initial_world)
    as (created & Hres & Hlen & _ & _ & Hlisted).
  - reflexivity.
  - reflexivity.
  - reflexivity.
  - exact I.
  - reflexivity.
  - apply accepting_accepted.
  - exists created. split_and!; [exact Hres | exact Hlen | exact Hlisted].
Defined.

Lemma updateOrderStatus_accepted_witness :
  let run := updateOrderStatus accepting buyer_session 0 "delivered"
               checked_out_world in
  run.1 = Normal tt ∧
  o_id <$> orders (store run.2) = o_id <$> orders (store checked_out_world) ∧
  ∀ o', o' ∈ orders (store run.2) → o_id o' = 0 → o_status o' = "delivered".
Proof.
  destruct (updateOrderStatus_accepted accepting buyer_session 0 "delivered"
              checked_out_world eq_refl)
    as (Hres & _ & _ & Hstatus & Hids & _).
  split_and!; [exact Hres | exact Hids | exact Hstatus].
Defined.

Lemma updateOrderStatus_refused_witness :
  let run := updateOrderStatus refusing_updates buyer_session 0 "delivered"
               checked_out_world in
  run.1 = Throw (new_Error "Failed to update order status") ∧
  orders (store run.2) = orders (store checked_out_world).
Proof.
  destruct (updateOrderStatus_refused refusing_updates buyer_session 0
              "delivered" checked_out_world refusal eq_refl)
    as (Hres & Horders & _).
  split; [exact Hres | exact Horders].
Defined.

Lemma updateQuantity_positive_witness :
  let run := updateQuantity accepting buyer_session "c1" 5 initial_world in
  run.1 = Normal tt ∧
  with_quantity 5 rowA ∈ cart_items (store run.2) ∧
  rowB ∈ cart_items (store run.2).
Proof.
  pose proof (updateQuantity_positive accepting buyer_session "c1" 5
                initial_world ltac:(lia)) as Hrun.
  cbv beta iota zeta delta [accepting cart_items_update_error] in Hrun.
  destruct Hrun as (Hres & Hrow & Hrest & _).
  split_and!.
  - exact Hres.
  - apply (Hrow rowA); [left | reflexivity].
  - apply (Hrest rowB); [right; left | discriminate].
Defined.

Lemma addToCart_table_witness :
  let run := addToCart accepting cart_accepting buyer_session "A" (Some 3%Z)
               initial_world in
  run.1 = Normal tt ∧
  NoDup (cr_id <$> cart_items (store run.2)) ∧
  NoDup (row_key <$> cart_items (store run.2)).
Proof.
  destruct (addToCart_table accepting cart_accepting buyer_session "u" "A"
              (Some 3%Z) initial_world) as (Hres & Hids & Hkeys & _).
  - reflexivity.
  - reflexivity.
  - reflexivity.
  - reflexivity.
  - apply (bool_decide_unpack _). vm_compute. exact I.
  - apply (bool_decide_unpack _). vm_compute. exact I.
  - apply (bool_decide_unpack _). vm_compute. exact I.
  - split_and!; [exact Hres | exact Hids | exact Hkeys].
Defined.

Lemma addToCart_total_items_witness :
  let run := addToCart accepting cart_accepting buyer_session "C" None
               initial_world in
  getTotalItems (st_cartItems (useCart_state run.2)) =
    (getTotalItems (cart_rows "u" (store initial_world)) + 1)%Z.
Proof.
  apply (addToCart_total_items accepting cart_accepting buyer_session "u" "C"
           None initial_world).
  - reflexivity.
  - reflexivity.
  - reflexivity.
  - reflexivity.
  - reflexivity.
  - apply (bool_decide_unpack _). vm_compute. exact I.
  - apply (bool_decide_unpack _). vm_compute. exact I.
Defined.

(** Of the integers only 0 is falsy. *)
Lemma Z_falsy_zero (x : Z) : num_truthy x = false → x = num_zero.
Proof.
  unfold num_truthy, Z_JsTruthy. intros Hx%bool_decide_eq_false.
  destruct (decide (x = 0%Z)) as [-> | Hne]; [reflexivity | by destruct Hx].
Qed.

Lemma createOrder_totals_add_up_witness :
  ∃ created,
    (createOrder accepting buyer_session two_seller_cart "12 Marina Road" None
       initial_world).1 = Normal created ∧
    foldl (λ sum o, num_add sum (o_total_amount o)) num_zero created =
      getTotalAmount [(rowA, Some productA); (rowB, Some productB)].
Proof.
  apply (@createOrder_totals_add_up Z Z_JsNumber Z_JsTruthy Z.add_assoc Z.add_comm Z.add_0_l
           Z_falsy_zero
           accepting buyer_session "u").
  - reflexivity.
  - apply accepting_accepted.
  - repeat constructor.
Defined.

Lemma createOrder_order_numbers_witness :
  ∃ created,
    (createOrder accepting buyer_session two_seller_cart "12 Marina Road" None
       initial_world).1 = Normal created ∧
    ∀ k o, created !! k = Some o →
      o_order_number o = "ORD-" +:+ pretty (1700000000000 + N.of_nat k)%N.
Proof.
  destruct (createOrder_order_numbers accepting buyer_session "u"
              "12 Marina Road" None two_seller_cart initial_world)
    as (created & Hres & Hnumber & _).
  - reflexivity.
  - apply accepting_accepted.
  - exists created. split; [exact Hres | exact Hnumber].
Defined.

(** * The figures of the seller dashboard

    [SellerDashboard] uses the orders hook with the seller role and no
    status filter, and computes its figures from the list of the hook. *)

Section Dashboard_stats.

Context {num : Type} `{JsNumber num}.

Implicit Types (o : @Order num) (shown : list (@Order num)).











End Dashboard_stats.


